(** * archinstall/lib/translationhandler.py

    A shallow embedding of the translation handler: the catalog loader
    ([TranslationHandler.__init__] and its helpers), the language registry
    lookups, the active-language switch ([activate]) and the deferred
    translation marker ([_DeferredTranslation], [tr]).

    Python values are modelled as follows.
    - [str] is [string]; [int] is [Z]; [float] is IEEE-754 binary64, taken
      from the standard library's [spec_float] with [prec = 53] and
      [emax = 1024];
    - [dict] is a [gmap]; [list] is [list];
    - a raised exception is the left injection of [Result]; the process-wide
      slot [builtins._] lives in the [Process] state threaded by [Py]. *)

From Stdlib Require Import ZArith String Ascii List.
From Stdlib Require Import DecimalString DecimalZ.
From Stdlib Require Import Floats.SpecFloat.
From stdpp Require Import gmap strings list fin_maps.

Local Open Scope string_scope.
Local Open Scope list_scope.
Local Open Scope Z_scope.

(** ** Exceptions and the error monad *)

Inductive Exception : Type :=
| StopIteration
| KeyError (key : string)
| AttributeError (attr : string)
| ZeroDivisionError
| OverflowError
| ValueError (msg : string)
| FileNotFoundError (msg : string)
| OSError (msg : string).

Definition Result (A : Type) : Type := (Exception + A)%type.

Definition raise {A} (e : Exception) : Result A := inl e.

#[global] Instance Result_ret : MRet Result := λ A a, inr a.
#[global] Instance Result_bind : MBind Result := λ A B k m,
  match m with
  | inl e => inl e
  | inr a => k a
  end.

(** [try: body except FileNotFoundError as err: handler err] *)
Definition try_except_FileNotFoundError {A}
    (body : Result A) (handler : string → Result A) : Result A :=
  match body with
  | inl (FileNotFoundError err) => handler err
  | other => other
  end.

(** ** Python arithmetic used by the percentage computation *)

Module PyNum.

Definition prec : Z := 53.
Definition emax : Z := 1024.

(** [a / b] on two [int]s (true division): the correctly rounded quotient,
    [ZeroDivisionError] for [b = 0], [OverflowError] when the quotient is
    too large for a float.  A zero numerator gives a signed zero. *)
Definition int_truediv (a b : Z) : Result spec_float :=
  let negate := xorb (a <? 0) (b <? 0) in
  match b with
  | Z0 => raise ZeroDivisionError
  | _ =>
      match a with
      | Z0 => mret (S754_zero negate)
      | _ =>
          let '(mz, ez, lz) :=
            SFdiv_core_binary prec emax (Z.abs a) 0 (Z.abs b) 0 in
          match binary_round_aux prec emax negate mz ez lz with
          | S754_infinity _ => raise OverflowError
          | q => mret q
          end
      end
  end.

(** [float(n)] for an [int] that a double holds exactly (here: [100]). *)
Definition float_of_int (n : Z) : spec_float :=
  binary_normalize prec emax n 0 false.

(** [x * n] for a float [x] and an int [n]. *)
Definition float_mul_int (x : spec_float) (n : Z) : spec_float :=
  SFmul prec emax x (float_of_int n).

(** [int(x)] on a float: truncation towards zero; infinities and NaN
    raise. *)
Definition int_of_float (x : spec_float) : Result Z :=
  match x with
  | S754_zero _ => mret 0
  | S754_finite s m e =>
      let magnitude :=
        match e with
        | Zneg p => Z.shiftr (Zpos m) (Zpos p)
        | _ => Z.shiftl (Zpos m) e
        end in
      mret (if s then - magnitude else magnitude)
  | S754_infinity _ => raise OverflowError
  | S754_nan => raise (ValueError "cannot convert float NaN to integer")
  end.

End PyNum.

(** [percent = int((num_translations / total_messages) * 100)]
    followed by [percent = min(100, percent)] (lines 72-74). *)
Definition translation_percent_of (num_translations : nat) (total_messages : Z)
    : Result Z :=
  q ← PyNum.int_truediv (Z.of_nat num_translations) total_messages ;
  percent ← PyNum.int_of_float (PyNum.float_mul_int q 100) ;
  mret (Z.min 100 percent).

(** A float that is not a negative number. *)
Definition not_negative (x : spec_float) : Prop :=
  match x with
  | S754_finite s _ _ => s = false
  | _ => True
  end.

(** ** Python strings and text files *)

Module PyStr.

Definition LF : ascii := "010"%char.
Definition CR : ascii := "013"%char.

(** [needle in haystack] for two [str]: substring search. *)
Fixpoint contains (needle haystack : string) : bool :=
  String.prefix needle haystack ||
  match haystack with
  | EmptyString => false
  | String _ rest => contains needle rest
  end.

(** [fp.readlines()] on a file opened in text mode with the default
    universal newlines: every line keeps its terminator, and the
    terminators [\r\n] and [\r] are read as [\n].  [cur] is the line read
    so far. *)
Fixpoint readlines_from (cur : string) (text : string) : list string :=
  match text with
  | EmptyString =>
      match cur with
      | EmptyString => []
      | _ => [cur]
      end
  | String c rest =>
      if Ascii.eqb c LF then
        (cur +:+ String LF EmptyString) :: readlines_from EmptyString rest
      else if Ascii.eqb c CR then
        match rest with
        | String c' rest' =>
            if Ascii.eqb c' LF then
              (cur +:+ String LF EmptyString) :: readlines_from EmptyString rest'
            else
              (cur +:+ String LF EmptyString) :: readlines_from EmptyString rest
        | EmptyString =>
            (cur +:+ String LF EmptyString) :: readlines_from EmptyString rest
        end
      else readlines_from (cur +:+ String c EmptyString) rest
  end.

Definition readlines (text : string) : list string :=
  readlines_from EmptyString text.

End PyStr.

(** ** The gettext translation objects

    [gettext.NullTranslations] and [gettext.GNUTranslations] of the Python
    standard library, as far as this module uses them: the catalog
    ([_catalog], a dict whose keys are message ids, or pairs of a message id
    and a plural index for plural entries), the plural-form selector and the
    chain of fallbacks.  The selector [plural] is compiled from the
    [Plural-Forms] header of the catalog: called on a number it returns an
    [int], which may be negative, or raises (as [n%0] does). *)

Abbreviation Catalog := (gmap (string + string * nat) string).

#[local] Unset Elimination Schemes.
Inductive Translations : Type :=
| NullTranslations (_fallback : option Translations)
| GNUTranslations (_catalog : Catalog) (plural : nat → Result Z)
    (_fallback : option Translations).
#[local] Set Elimination Schemes.

(** Induction along the chain of fallbacks. *)
Fixpoint Translations_chain_ind (P : Translations → Prop)
    (HNull0 : P (NullTranslations None))
    (HNull : ∀ f, P f → P (NullTranslations (Some f)))
    (HGNU0 : ∀ c pl, P (GNUTranslations c pl None))
    (HGNU : ∀ c pl f, P f → P (GNUTranslations c pl (Some f)))
    (t : Translations) : P t :=
  match t with
  | NullTranslations None => HNull0
  | NullTranslations (Some f) =>
      HNull f (Translations_chain_ind P HNull0 HNull HGNU0 HGNU f)
  | GNUTranslations c pl None => HGNU0 c pl
  | GNUTranslations c pl (Some f) =>
      HGNU c pl f (Translations_chain_ind P HNull0 HNull HGNU0 HGNU f)
  end.

(** [catalog.get((message, i))] for the [int] [i] that the plural selector
    returned: the plural indices of a catalog are not negative, so a negative
    [i] is the key of no entry. *)
Definition lookup_plural (catalog : Catalog) (message : string) (i : Z)
    : option string :=
  if i <? 0 then None else catalog !! inr (message, Z.to_nat i).

(** [t.gettext(message)]:
    - [NullTranslations]: the fallback's answer, or [message];
    - [GNUTranslations]: the catalog entry for [message], else the entry for
      [(message, plural(1))], else the fallback's answer, else [message];
      an exception of [plural(1)] leaves the method. *)
Fixpoint gettext (t : Translations) (message : string) : Result string :=
  match t with
  | NullTranslations fallback =>
      match fallback with
      | Some f => gettext f message
      | None => mret message
      end
  | GNUTranslations catalog plural fallback =>
      match catalog !! inl message with
      | Some tmsg => mret tmsg
      | None =>
          match plural 1%nat with
          | inl e => raise e
          | inr i =>
              match lookup_plural catalog message i with
              | Some tmsg => mret tmsg
              | None =>
                  match fallback with
                  | Some f => gettext f message
                  | None => mret message
                  end
              end
          end
      end
  end.

(** Truth value of a catalog key ([str] or [tuple]) and of a [str]. *)
Definition key_truthy (k : string + string * nat) : Prop :=
  match k with
  | inl msgid => msgid ≠ ""
  | inr _ => True
  end.

#[global] Instance key_truthy_dec k : Decision (key_truthy k).
Proof. destruct k; simpl; apply _. Defined.

(** ** Language *)

Record Language : Type := {
  abbr : string;
  name_en : string;
  translation : Translations;
  translation_percent : Z;
  translated_lang : option string;
}.

(** ** The locales directory, as the loader reads it *)

Record LocalesDir : Type := {
  (** the text of [base.pot], or the exception [open] raises *)
  base_pot : Result string;
  (** [json.load] of [languages.json], or the exception raised *)
  languages_json : Result (list (gmap string string));
  (** [os.listdir(locales_dir)] *)
  listdir : list string;
  (** [gettext.translation('base', localedir=..., languages=(abbr, lang))] *)
  gettext_translation : string → string → Result Translations;
}.

(** [d[key]] on a dict. *)
Definition getitem (d : gmap string string) (key : string) : Result string :=
  match d !! key with
  | Some v => mret v
  | None => raise (KeyError key)
  end.

(** [next(filter(p, l))] *)
Fixpoint next_filter {A} (p : A → Result bool) (l : list A) : Result A :=
  match l with
  | [] => raise StopIteration
  | x :: rest =>
      b ← p x;
      if b : bool then mret x else next_filter p rest
  end.

(** [try: body except Exception: handler] *)
Definition try_except_Exception {A} (body : Result A) (handler : Result A)
    : Result A :=
  match body with
  | inl _ => handler
  | inr a => inr a
  end.

(** ** TranslationHandler *)

Record TranslationHandler : Type := {
  _total_messages : Z;
  _translated_languages : list Language;
}.

(** [_get_total_active_messages] (lines 103-112). *)
Definition _get_total_active_messages (fs : LocalesDir) : Result Z :=
  text ← base_pot fs;
  let lines := PyStr.readlines text in
  let msgid_lines := filter (λ line, PyStr.contains "msgid" line = true) lines in
  mret (Z.of_nat (length msgid_lines) - 1).

(** [_load_language_mappings] (lines 83-91). *)
Definition _load_language_mappings (fs : LocalesDir)
    : Result (list (gmap string string)) :=
  languages_json fs.

(** [_provided_translations] (lines 147-159). *)
Definition is_translation_file (filename : string) : bool :=
  (String.length filename =? 2)%nat
  || bool_decide (filename ∈ ["pt_BR"; "zh-CN"; "zh-TW"]).

Definition _provided_translations (fs : LocalesDir) : list string :=
  filter (λ filename, is_translation_file filename = true) (listdir fs).

(** [_get_catalog_size] (lines 93-101): the number of catalog items whose
    key and value are both truthy.  [NullTranslations] has no [_catalog]. *)
Definition _get_catalog_size (translation : Translations) : Result nat :=
  match translation with
  | NullTranslations _ => raise (AttributeError "_catalog")
  | GNUTranslations catalog _ _ =>
      let messages :=
        filter (λ kv : (string + string * nat) * string,
                  key_truthy kv.1 ∧ kv.2 ≠ "") catalog in
      mret (size messages)
  end.

(** The predicate of line 58: [lambda x: x['abbr'] == short_form]. *)
Definition abbr_is (short_form : string) (x : gmap string string)
    : Result bool :=
  a ← getitem x "abbr";
  mret (bool_decide (a = short_form)).

(** The body of the [for short_form in defined_languages] loop
    (lines 58-79): the [Language] appended in this iteration. *)
Definition load_language (fs : LocalesDir) (total_messages : Z)
    (mappings : list (gmap string string)) (short_form : string)
    : Result Language :=
  mapping_entry ← next_filter (abbr_is short_form) mappings;
  abbr ← getitem mapping_entry "abbr";
  lang ← getitem mapping_entry "lang";
  let translated_lang := mapping_entry !! "translated_lang" in
  try_except_FileNotFoundError
    (translation ← gettext_translation fs abbr lang;
     percent ←
       (if bool_decide (abbr = "en") then mret 100
        else
          num_translations ← _get_catalog_size translation;
          translation_percent_of num_translations total_messages);
     mret {| abbr := abbr; name_en := lang; translation := translation;
             translation_percent := percent;
             translated_lang := translated_lang |})
    (λ err,
       raise (FileNotFoundError
                ("Could not locate language file for '" +:+ lang +:+ "': "
                 +:+ err))).

(** The loop itself: [languages] is the list built so far. *)
Fixpoint load_languages (fs : LocalesDir) (total_messages : Z)
    (mappings : list (gmap string string)) (defined_languages : list string)
    (languages : list Language) : Result (list Language) :=
  match defined_languages with
  | [] => mret languages
  | short_form :: rest =>
      language ← load_language fs total_messages mappings short_form;
      load_languages fs total_messages mappings rest (languages ++ [language])
  end.

(** [_get_translations] (lines 48-81). *)
Definition _get_translations (fs : LocalesDir) (total_messages : Z)
    : Result (list Language) :=
  mappings ← _load_language_mappings fs;
  let defined_languages := _provided_translations fs in
  load_languages fs total_messages mappings defined_languages [].

(** [TranslationHandler.__init__] (lines 37-42). *)
Definition TranslationHandler_init (fs : LocalesDir) : Result TranslationHandler :=
  total_messages ← _get_total_active_messages fs;
  translated_languages ← _get_translations fs total_messages;
  mret {| _total_messages := total_messages;
          _translated_languages := translated_languages |}.

(** The abbreviation and the stored percentage of every loaded language, in
    registry order. *)
Definition completeness (self : TranslationHandler) : list (string * Z) :=
  map (λ L, (abbr L, translation_percent L)) (_translated_languages self).

Definition loaded_completeness (fs : LocalesDir) : Result (list (string * Z)) :=
  self ← TranslationHandler_init fs;
  mret (completeness self).

(** [get_language_by_name] (lines 114-121). *)
Definition get_language_by_name (self : TranslationHandler) (name : string)
    : Result Language :=
  try_except_Exception
    (next_filter (λ x, mret (bool_decide (name_en x = name)))
       (_translated_languages self))
    (raise (ValueError ("No language with name found: " +:+ name))).

(** [get_language_by_abbr] (lines 123-130). *)
Definition get_language_by_abbr (self : TranslationHandler) (abbr' : string)
    : Result Language :=
  try_except_Exception
    (next_filter (λ x, mret (bool_decide (abbr x = abbr')))
       (_translated_languages self))
    (raise (ValueError ("No language with abbreviation "
                        +:+ String "034"%char abbr'
                        +:+ String "034"%char " found"))).

(** ** The process: [builtins._] and the module-level handler *)

(** What [builtins._] holds: the class [_DeferredTranslation] (line 180),
    or the bound method [t.gettext] that [t.install()] stores there. *)
Inductive builtins_underscore : Type :=
| _DeferredTranslation_class
| bound_gettext (t : Translations).

Record Process : Type := {
  builtins__ : builtins_underscore;
  translation_handler : option TranslationHandler;
}.

(** Code that runs in the process: it reads and writes the state and may
    raise. *)
Definition Py (A : Type) : Type := Process → Result (A * Process).

#[global] Instance Py_ret : MRet Py := λ A a σ, inr (a, σ).
#[global] Instance Py_bind : MBind Py := λ A B k m σ,
  match m σ with
  | inl e => inl e
  | inr (a, σ') => k a σ'
  end.

(** A computation that only returns or raises, run in the process. *)
Definition lift {A} (r : Result A) : Py A :=
  λ σ, match r with
       | inl e => inl e
       | inr a => inr (a, σ)
       end.

Definition read_builtins_ : Py builtins_underscore :=
  λ σ, inr (builtins__ σ, σ).

Definition write_builtins_ (f : builtins_underscore) : Py unit :=
  λ σ, inr (tt, {| builtins__ := f;
                   translation_handler := translation_handler σ |}).

(** [t.install()]: assigns [t.gettext] to [builtins._]. *)
Definition install (t : Translations) : Py unit :=
  write_builtins_ (bound_gettext t).

(** [TranslationHandler.activate] (lines 132-137). *)
Definition activate (language : Language) : Py unit :=
  install (translation language).

(** [_DeferredTranslation] (lines 162-173). *)
Record _DeferredTranslation : Type := { message : string }.

Definition __str__ (self : _DeferredTranslation) : Py string :=
  f ← read_builtins_;
  match f with
  | _DeferredTranslation_class => mret (message self)
  | bound_gettext t => lift (gettext t (message self))
  end.

(** [tr] (lines 176-177). *)
Definition tr (message : string) : Py string :=
  __str__ {| message := message |}.

(** Running the module body (lines 180-183) on a locales directory:
    [builtins._ = _DeferredTranslation], then
    [translation_handler = TranslationHandler()]. *)
Definition import_module (fs : LocalesDir) : Result Process :=
  handler ← TranslationHandler_init fs;
  mret {| builtins__ := _DeferredTranslation_class;
          translation_handler := Some handler |}.

(** The state after line 180 alone, before the handler is built. *)
Definition passthrough_process : Process :=
  {| builtins__ := _DeferredTranslation_class; translation_handler := None |}.

(** The value a computation returns, without the final state. *)
Definition returned {A} (r : Result (A * Process)) : Result A :=
  match r with
  | inl e => inl e
  | inr (a, _) => inr a
  end.

(** A message no catalog of the fallback chain of [t] has, neither under its
    own key nor under the key of its plural form. *)
Fixpoint lacks (t : Translations) (message : string) : Prop :=
  match t with
  | NullTranslations fallback =>
      match fallback with
      | Some f => lacks f message
      | None => True
      end
  | GNUTranslations catalog plural fallback =>
      catalog !! inl message = None
      ∧ (∃ i, plural 1%nat = inr i ∧ lookup_plural catalog message i = None)
      ∧ match fallback with
        | Some f => lacks f message
        | None => True
        end
  end.

(** The lookup of a message along the fallback chain of [t] meets no plural
    selector that raises: in every catalog it comes to, the message is a key,
    or the selector returns an index and then the plural key is a key or the
    lookup goes on in the fallback. *)
Fixpoint answers (t : Translations) (message : string) : Prop :=
  match t with
  | NullTranslations fallback =>
      match fallback with
      | Some f => answers f message
      | None => True
      end
  | GNUTranslations catalog plural fallback =>
      is_Some (catalog !! inl message)
      ∨ ∃ i, plural 1%nat = inr i
             ∧ (is_Some (lookup_plural catalog message i)
                ∨ match fallback with
                  | Some f => answers f message
                  | None => True
                  end)
  end.

(** ** The methods of [Language] and the registry property *)

(** [str(n)] for an [int], as an f-string formats it: the decimal digits,
    after a minus sign for a negative number. *)
Definition str_of_int (n : Z) : string :=
  NilEmpty.string_of_int (Z.to_int n).

(** [display_name] (lines 20-23). *)
Definition display_name (self : Language) : string :=
  let name := name_en self in
  name +:+ " (" +:+ str_of_int (translation_percent self) +:+ "%)".

(** [is_match] (lines 25-30); [None == s] is false for every [str]. *)
Definition is_match (self : Language) (lang_or_translated_lang : string)
    : bool :=
  if bool_decide (name_en self = lang_or_translated_lang) then true
  else if bool_decide (translated_lang self = Some lang_or_translated_lang)
  then true
  else false.

(** [json] (lines 32-33). *)
Definition json (self : Language) : string := name_en self.

(** [translated_languages] (lines 44-46). *)
Definition translated_languages (self : TranslationHandler) : list Language :=
  _translated_languages self.

(** [entry] is the first dict of [mappings] whose [abbr] is [short_form],
    and every dict before it has an [abbr]. *)
Definition first_entry_for (mappings : list (gmap string string))
    (short_form : string) (entry : gmap string string) : Prop :=
  ∃ before after,
    mappings = before ++ entry :: after
    ∧ Forall (λ x, ∃ a, x !! "abbr" = Some a ∧ a ≠ short_form) before
    ∧ entry !! "abbr" = Some short_form.

(** ** Sequences of calls on the process *)

(** A caller's use of the module after import: [activate(language)] on the
    handler, or [tr(message)]. *)
Inductive Call : Type :=
| call_activate (language : Language)
| call_tr (message : string).

(** One call; [Some s] is the string a [tr] call returns. *)
Definition run_call (c : Call) : Py (option string) :=
  match c with
  | call_activate language => _ ← activate language; mret None
  | call_tr message => s ← tr message; mret (Some s)
  end.

(** The calls one after the other, with what each returned. *)
Fixpoint run_calls (cs : list Call) : Py (list (option string)) :=
  match cs with
  | [] => mret []
  | c :: rest =>
      r ← run_call c;
      rs ← run_calls rest;
      mret (r :: rs)
  end.

(** ** The reference count, in the words of the specification

    A line identifies a message-id declaration when it contains the marker
    [msgid]; [message_id_lines lines n] says that [n] of the [lines] do. *)

Definition is_message_id_line (line : string) : Prop :=
  ∃ before after, line = before +:+ "msgid" +:+ after.

Inductive message_id_lines : list string → nat → Prop :=
| message_id_lines_nil :
    message_id_lines [] 0
| message_id_lines_hit line lines n :
    is_message_id_line line →
    message_id_lines lines n →
    message_id_lines (line :: lines) (S n)
| message_id_lines_miss line lines n :
    ¬ is_message_id_line line →
    message_id_lines lines n →
    message_id_lines (line :: lines) n.

(** ** Entries of a reference catalog *)

(** A string that stays on one line: it has no line feed and no carriage
    return. *)
Definition no_newline (s : string) : Prop :=
  Forall (λ c, c ≠ PyStr.LF ∧ c ≠ PyStr.CR) (list_ascii_of_string s).

Definition quoted (s : string) : string :=
  String "034" (s +:+ String "034" "").

(** The four lines of an entry with a plural form, as [xgettext] writes
    them into a [.pot] file: [msgid], [msgid_plural] and two empty
    [msgstr]. *)
Definition plural_entry (msgid msgid_plural : string) : string :=
  ("msgid " +:+ quoted msgid) +:+ String PyStr.LF
  (("msgid_plural " +:+ quoted msgid_plural) +:+ String PyStr.LF
  (("msgstr[0] " +:+ quoted "") +:+ String PyStr.LF
  (("msgstr[1] " +:+ quoted "") +:+ String PyStr.LF ""))).

(** * Concrete inputs *)

Module Fixtures.

(** The plural selector of a catalog without a [Plural-Forms] header:
    [lambda n: int(n != 1)]. *)
Definition germanic_plural (n : nat) : Result Z :=
  inr (if (n =? 1)%nat then 0 else 1).

(** A German catalog: the header entry under the empty message id,
    [Hello] translated, [Goodbye] present with an empty translation. *)
Definition german_catalog : gmap (string + string * nat) string :=
  {[ inl "" := "Project-Id-Version: archinstall";
     inl "Hello" := "Hallo";
     inl "Goodbye" := "" ]}.

Definition german : Language :=
  {| abbr := "de"; name_en := "German";
     translation := GNUTranslations german_catalog germanic_plural None;
     translation_percent := 50;
     translated_lang := Some "Deutsch" |}.

(** The selector of a catalog whose header says [plural=n%0]: it raises on
    every number. *)
Definition raising_plural (n : nat) : Result Z := inl ZeroDivisionError.

(** The German catalog with that selector. *)
Definition german_raising : Language :=
  {| abbr := "de"; name_en := "German";
     translation := GNUTranslations german_catalog raising_plural None;
     translation_percent := 50;
     translated_lang := Some "Deutsch" |}.

(** Two processes with German active, one with a handler and one
    without. *)
Definition german_process : Process :=
  {| builtins__ := bound_gettext (translation german);
     translation_handler := None |}.

Definition german_loaded_process : Process :=
  {| builtins__ := bound_gettext (translation german);
     translation_handler :=
       Some {| _total_messages := 2; _translated_languages := [german] |} |}.

(** A process in which a handler exists already. *)
Definition loaded_process : Process :=
  {| builtins__ := _DeferredTranslation_class;
     translation_handler :=
       Some {| _total_messages := 2; _translated_languages := [german] |} |}.

(** Text of a reference catalog: the header entry, whose message id is
    empty, and [n] messages with the ids [a], [aa], [aaa], ... *)
Fixpoint unary (n : nat) : string :=
  match n with
  | O => ""
  | S k => String "a" (unary k)
  end.

Definition pot_entry (msgid : string) : string :=
  "msgid " +:+ String "034" msgid +:+ String "034" (String PyStr.LF "")
  +:+ "msgstr " +:+ String "034" (String "034" (String PyStr.LF ""))
  +:+ String PyStr.LF "".

Fixpoint pot_messages (n : nat) : string :=
  match n with
  | O => ""
  | S k => pot_messages k +:+ pot_entry (unary n)
  end.

Definition pot_with (n : nat) : string := pot_entry "" +:+ pot_messages n.

(** A catalog with the header entry and [t] translated messages. *)
Definition catalog_of_size (t : nat) : gmap (string + string * nat) string :=
  list_to_map
    ((inl "", "Project-Id-Version: archinstall")
     :: map (λ i, (inl (unary (S i)), "x")) (seq 0 t)).

Definition no_mo_file : Exception :=
  FileNotFoundError "[Errno 2] No translation file found for domain: 'base'".

(** A locales directory with the languages [de] and [en]: the reference
    catalog has the text [pot], the German catalog is [catalog]. *)
Definition locales (pot : string)
    (catalog : gmap (string + string * nat) string) : LocalesDir :=
  {| base_pot := inr pot;
     languages_json :=
       inr [ {[ "abbr" := "en"; "lang" := "English" ]};
             {[ "abbr" := "de"; "lang" := "German";
                "translated_lang" := "Deutsch" ]} ];
     listdir := ["de"; "en"; "languages.json"; "base.pot"];
     gettext_translation := λ abbr lang,
       if bool_decide (abbr = "de") then
         inr (GNUTranslations catalog germanic_plural None)
       else if bool_decide (abbr = "en") then
         inr (GNUTranslations ∅ germanic_plural None)
       else inl no_mo_file |}.

(** Two reference messages; the German catalog translates one of them. *)
Definition english : Language :=
  {| abbr := "en"; name_en := "English";
     translation := GNUTranslations ∅ germanic_plural None;
     translation_percent := 100;
     translated_lang := None |}.

Definition locales_small : LocalesDir := locales (pot_with 2) german_catalog.

Definition small_handler : TranslationHandler :=
  {| _total_messages := 2; _translated_languages := [german; english] |}.

(** 29 translated messages against a reference catalog of 100. *)
Definition locales_29_of_100 : LocalesDir :=
  locales (pot_with 100) (catalog_of_size 29).

(** An empty [base.pot], and one translated message. *)
Definition locales_empty_pot : LocalesDir :=
  locales "" (catalog_of_size 1).

(** The same directory with a directory [xx] that [languages.json] does
    not name. *)
Definition locales_with_xx : LocalesDir :=
  {| base_pot := inr (pot_with 2);
     languages_json := languages_json (locales "" ∅);
     listdir := ["de"; "xx"; "en"];
     gettext_translation := gettext_translation (locales "" german_catalog) |}.

(** Two directories that [languages.json] gives the same English name. *)
Definition portuguese (a : string) : Language :=
  {| abbr := a; name_en := "Portuguese";
     translation := GNUTranslations ∅ germanic_plural None;
     translation_percent := 0; translated_lang := None |}.

Definition locales_portuguese : LocalesDir :=
  {| base_pot := inr (pot_with 1);
     languages_json :=
       inr [ {[ "abbr" := "pt"; "lang" := "Portuguese" ]};
             {[ "abbr" := "pt_BR"; "lang" := "Portuguese" ]} ];
     listdir := ["pt"; "pt_BR"];
     gettext_translation := λ _ _,
       inr (GNUTranslations ∅ germanic_plural None) |}.

Definition portuguese_handler : TranslationHandler :=
  {| _total_messages := 1;
     _translated_languages := [portuguese "pt"; portuguese "pt_BR"] |}.

(** A directory [fr] that [languages.json] names, without a catalog file. *)
Definition french_entry : gmap string string :=
  {[ "abbr" := "fr"; "lang" := "French" ]}.

Definition german_entry : gmap string string :=
  {[ "abbr" := "de"; "lang" := "German"; "translated_lang" := "Deutsch" ]}.

Definition locales_missing_fr : LocalesDir :=
  {| base_pot := inr (pot_with 2);
     languages_json := inr [german_entry; french_entry];
     listdir := ["de"; "fr"; "base.pot"];
     gettext_translation := gettext_translation (locales "" german_catalog) |}.

(** A reference catalog with the header entry alone, and English only. *)
Definition locales_english_only : LocalesDir :=
  {| base_pot := inr (pot_with 0);
     languages_json := inr [ {[ "abbr" := "en"; "lang" := "English" ]} ];
     listdir := ["en"; "base.pot"; "languages.json"];
     gettext_translation := gettext_translation (locales "" ∅) |}.

Definition english_only_handler : TranslationHandler :=
  {| _total_messages := 0; _translated_languages := [english] |}.

(** A language whose catalog has the header entry only. *)
Definition untranslated : Language :=
  {| abbr := "de"; name_en := "German";
     translation := GNUTranslations (catalog_of_size 0) germanic_plural None;
     translation_percent := 0;
     translated_lang := Some "Deutsch" |}.

Definition locales_untranslated : LocalesDir :=
  locales (pot_with 2) (catalog_of_size 0).

Definition untranslated_handler : TranslationHandler :=
  {| _total_messages := 2; _translated_languages := [untranslated; english] |}.

(** German with a catalog, and [fr] named in [languages.json] but absent
    from the directory listing. *)
Definition locales_german_french : LocalesDir :=
  {| base_pot := inr (pot_with 2);
     languages_json := inr [german_entry; french_entry];
     listdir := ["de"; "base.pot"];
     gettext_translation := gettext_translation (locales "" german_catalog) |}.

Definition german_french_handler : TranslationHandler :=
  {| _total_messages := 2; _translated_languages := [german] |}.

(** A reference catalog in two parts: the header line, then two
    messages. *)
Definition header_line : string := "msgid " +:+ quoted "".

Definition locales_header : LocalesDir :=
  locales (header_line +:+ String PyStr.LF "") ∅.

Definition locales_messages : LocalesDir := locales (pot_messages 2) ∅.

Definition locales_header_messages : LocalesDir :=
  locales ((header_line +:+ String PyStr.LF "") +:+ pot_messages 2) ∅.

Definition locales_header_plural : LocalesDir :=
  locales ((header_line +:+ String PyStr.LF "") +:+ plural_entry "file" "files")
    ∅.

End Fixtures.

(** * Properties *)

(** Unfolding of the two monads' operations. *)
Ltac py_unfold :=
  unfold mbind, mret, Py_bind, Py_ret, Result_bind, Result_ret, raise in *.

(** ** Deferred translation: [tr] and [activate] *)

Section Resolution.

Implicit Types (σ : Process) (t : Translations) (m : string).

Lemma tr_unfold m σ :
  tr m σ =
  match builtins__ σ with
  | _DeferredTranslation_class => inr (m, σ)
  | bound_gettext t => lift (gettext t m) σ
  end.
Proof.
  unfold tr, __str__, read_builtins_. py_unfold. cbn.
  by destruct (builtins__ σ).
Qed.

Lemma activate_unfold (L : Language) σ :
  activate L σ =
  inr (tt, {| builtins__ := bound_gettext (translation L);
              translation_handler := translation_handler σ |}).
Proof. reflexivity. Qed.

(** A message that the whole fallback chain lacks comes back as it is. *)
Lemma gettext_lacks t m : lacks t m → gettext t m = inr m.
Proof.
  induction t as [|f IH|c pl|c pl f IH] using Translations_chain_ind; simpl.
  - done.
  - exact IH.
  - intros (-> & (i & -> & ->) & _). done.
  - intros (-> & (i & -> & ->) & Hf). by apply IH.
Qed.

(** A message id that is a key of the first catalog gets that entry. *)
Lemma gettext_present c pl fb m v :
  c !! inl m = Some v → gettext (GNUTranslations c pl fb) m = inr v.
Proof. intros H. simpl. by rewrite H. Qed.

(** One catalog of the chain: what [gettext] does there, given what the
    fallback does. *)
Lemma gettext_GNU_returns c pl fb m (rest : Prop) :
  ((∃ s, match fb with
         | Some f => gettext f m
         | None => inr m
         end = inr s) ↔ rest) →
  (∃ s, gettext (GNUTranslations c pl fb) m = inr s)
  ↔ is_Some (c !! inl m)
    ∨ ∃ i, pl 1%nat = inr i ∧ (is_Some (lookup_plural c m i) ∨ rest).
Proof.
  intros Hrest. simpl. destruct (c !! inl m) as [v|] eqn:Hv.
  { split; [intros _; by left|intros _; by exists v]. }
  destruct (pl 1%nat) as [e|i] eqn:Hi.
  { split; [by intros [s Hs]|].
    intros [[v' Hv']|(i & Hi' & _)]; done. }
  destruct (lookup_plural c m i) as [w|] eqn:Hw.
  { split; [|intros _; by exists w].
    intros _. right. exists i. split; [done|]. by left. }
  rewrite Hrest. split.
  - intros Hr. right. exists i. split; [done|]. by right.
  - intros [[v' Hv']|(i' & Hi' & Hor)]; [done|].
    injection Hi' as <-. rewrite Hw in Hor.
    destruct Hor as [[w' Hw']|Hr]; done.
Qed.

(** [gettext] returns exactly when the lookup meets no raising selector. *)
Lemma gettext_answers t m : (∃ s, gettext t m = inr s) ↔ answers t m.
Proof.
  induction t as [|f IH|c pl|c pl f IH] using Translations_chain_ind.
  - simpl. split; [done|]. intros _. by exists m.
  - exact IH.
  - cbn [answers]. apply gettext_GNU_returns.
    split; [done|]. intros _. by exists m.
  - cbn [answers]. by apply gettext_GNU_returns.
Qed.

Lemma tr_returns_iff m σ t :
  builtins__ σ = bound_gettext t →
  (∃ s, tr m σ = inr (s, σ)) ↔ answers t m.
Proof.
  intros Hb. rewrite tr_unfold, Hb, <- gettext_answers. unfold lift.
  destruct (gettext t m) as [e|s].
  - split; intros [s Hs]; done.
  - split; intros _; by exists s.
Qed.

End Resolution.

(** C2: in passthrough mode, that is while [builtins._] still is the class
    [_DeferredTranslation], [tr m] returns [m] itself, for every message
    [m], and leaves the process as it was. *)
Theorem tr_passthrough (σ : Process) (m : string) :
  builtins__ σ = _DeferredTranslation_class → tr m σ = inr (m, σ).
Proof. intros H. rewrite tr_unfold. by rewrite H. Qed.

Lemma tr_passthrough_witness :
  tr "Hello" passthrough_process = inr ("Hello", passthrough_process).
Proof. apply (tr_passthrough passthrough_process "Hello"). reflexivity. Defined.

(** C1, as the code has it: after [activate L], [tr m] returns the entry
    that the catalog of [L] stores under the key [m] whenever that key is
    present, also when the entry is the empty string; when [m] is absent from
    the catalog (under the key [m] and under the plural key
    [(m, plural(1))]) and from every fallback chained to it, [tr m] returns
    [m] itself. *)
Theorem tr_after_activate (σ : Process) (L : Language)
    (c : gmap (string + string * nat) string) (pl : nat → Result Z)
    (fb : option Translations) (m : string) :
  translation L = GNUTranslations c pl fb →
  ∃ σ', activate L σ = inr (tt, σ')
    ∧ (∀ v, c !! inl m = Some v → tr m σ' = inr (v, σ'))
    ∧ (lacks (translation L) m → tr m σ' = inr (m, σ')).
Proof.
  intros HL. eexists. split; [apply activate_unfold|]. split.
  - intros v Hv. rewrite tr_unfold. cbn. rewrite HL.
    by rewrite (gettext_present _ _ _ _ _ Hv).
  - intros Hm. rewrite tr_unfold. cbn. by rewrite (gettext_lacks _ _ Hm).
Qed.

Lemma tr_after_activate_witness :
  ∃ σ', activate Fixtures.german passthrough_process = inr (tt, σ')
    ∧ (∀ v, Fixtures.german_catalog !! inl "Hello" = Some v →
            tr "Hello" σ' = inr (v, σ'))
    ∧ (lacks (translation Fixtures.german) "Hello" →
       tr "Hello" σ' = inr ("Hello", σ')).
Proof.
  apply (tr_after_activate passthrough_process Fixtures.german
           Fixtures.german_catalog Fixtures.germanic_plural None "Hello").
  reflexivity.
Defined.

(** C1 as stated fails where the catalog holds an empty translation: with
    [Goodbye] mapped to the empty string, [tr "Goodbye"] after
    [activate german] is the empty string, not [Goodbye]. *)
Lemma tr_empty_translation_is_returned :
  Fixtures.german_catalog !! inl "Goodbye" = Some ""
  ∧ returned ((activate Fixtures.german ≫= λ _, tr "Goodbye")
                passthrough_process) = inr ""
  ∧ returned ((activate Fixtures.german ≫= λ _, tr "Goodbye")
                passthrough_process) ≠ inr "Goodbye".
Proof. split; [|split]; [by vm_compute..|]. vm_compute. discriminate. Qed.

(** C9, as the code has it: [tr] returns a string, raises nothing and
    leaves the process alone
    - in passthrough mode, for every message, and
    - with an active translation, exactly for the messages whose lookup
      meets no plural selector that raises: in every catalog that the lookup
      comes to along the fallback chain, the message is a key, or the
      selector returns at 1.
    Then the no-active-language case and the missing-key case (the message
    is in no catalog of the chain) give the message itself.  Where a catalog
    lacks the message and its selector raises at 1, [tr] raises what the
    selector raised. *)
Theorem tr_returns_unless_selector_raises (σ : Process) (m : string) :
  (builtins__ σ = _DeferredTranslation_class → tr m σ = inr (m, σ))
  ∧ (∀ t, builtins__ σ = bound_gettext t →
       ((∃ s, tr m σ = inr (s, σ)) ↔ answers t m)
       ∧ (lacks t m → tr m σ = inr (m, σ))
       ∧ (¬ answers t m → ∃ e, tr m σ = inl e ∧ gettext t m = inl e)).
Proof.
  split.
  - intros Hb. rewrite tr_unfold. by rewrite Hb.
  - intros t Hb. split; [by apply tr_returns_iff|]. split.
    + intros Hm. rewrite tr_unfold, Hb. unfold lift.
      by rewrite (gettext_lacks _ _ Hm).
    + intros Hno. rewrite tr_unfold, Hb. unfold lift.
      destruct (gettext t m) as [e|s] eqn:Hg; [by exists e|].
      destruct Hno. apply gettext_answers. by exists s.
Qed.

(** C9 as stated fails with a catalog whose [Plural-Forms] header makes the
    selector raise ([plural=n%0]): [Missing] is no key of the catalog, the
    lookup calls [plural(1)], and [tr "Missing"] raises
    [ZeroDivisionError]. *)
Lemma tr_raises_with_raising_selector :
  Fixtures.german_catalog !! inl "Missing" = None
  ∧ returned ((activate Fixtures.german_raising ≫= λ _, tr "Missing")
                passthrough_process) = inl ZeroDivisionError.
Proof. split; by vm_compute. Qed.

Example tr_with_raising_selector_present_key :
  returned ((activate Fixtures.german_raising ≫= λ _, tr "Hello")
              passthrough_process) = inr "Hallo".
Proof. by vm_compute. Qed.

(** C10: what [tr m] does is a function of [m] and of [builtins._] alone:
    in two processes that agree on [builtins._] (whatever else they hold)
    [tr m] has the same outcome, the same string returned or the same
    exception raised, and neither process is changed by it, so that
    evaluating it again has that outcome again. *)
Theorem tr_deterministic (σ1 σ2 : Process) (m : string) :
  builtins__ σ1 = builtins__ σ2 →
  ∃ r : Result string, tr m σ1 = lift r σ1 ∧ tr m σ2 = lift r σ2.
Proof.
  intros H. rewrite !tr_unfold, <- H.
  destruct (builtins__ σ1) as [|t].
  - by exists (inr m).
  - by exists (gettext t m).
Qed.

Lemma tr_deterministic_witness :
  ∃ r : Result string,
    tr "Hello" Fixtures.german_process = lift r Fixtures.german_process
    ∧ tr "Hello" Fixtures.german_loaded_process
      = lift r Fixtures.german_loaded_process.
Proof.
  apply (tr_deterministic Fixtures.german_process
           Fixtures.german_loaded_process "Hello").
  reflexivity.
Defined.

Example tr_deterministic_on_german :
  tr "Hello" Fixtures.german_process = inr ("Hallo", Fixtures.german_process)
  ∧ tr "Hello" Fixtures.german_loaded_process
    = inr ("Hallo", Fixtures.german_loaded_process).
Proof. split; by vm_compute. Qed.

(** ** Registry lookups *)

Section Lookup.

Context {A : Type} (p : A → bool).

(** [next(filter(p, l))] returns the first element that satisfies [p]. *)
Lemma next_filter_first (before after : list A) (x : A) :
  Forall (λ y, p y = false) before → p x = true →
  next_filter (λ y, mret (p y)) (before ++ x :: after) = inr x.
Proof.
  intros Hb Hx. induction Hb as [|y before Hy _ IH]; simpl; py_unfold.
  - by rewrite Hx.
  - by rewrite Hy.
Qed.

(** ... and raises [StopIteration] when there is none. *)
Lemma next_filter_none (l : list A) :
  Forall (λ y, p y = false) l →
  next_filter (λ y, mret (p y)) l = inl StopIteration.
Proof.
  intros Hl. induction Hl as [|y l Hy _ IH]; simpl; py_unfold; [done|].
  by rewrite Hy.
Qed.

End Lookup.

(** C6, as the code has it: a lookup returns the first record in registry
    order with the given English name.  So for a record [L] of the registry
    that no earlier record shares its English name with,
    [get_language_by_name] of that name returns [L]; for a name that is no
    record's English name the lookup raises [ValueError]; and
    [get_language_by_abbr] does the same over abbreviations.  The comparison
    is exact equality of strings. *)
Theorem lookup_returns_first_match (self : TranslationHandler) :
  (∀ i L, _translated_languages self !! i = Some L →
     Forall (λ L', name_en L' ≠ name_en L) (take i (_translated_languages self)) →
     get_language_by_name self (name_en L) = inr L)
  ∧ (∀ name, Forall (λ L', name_en L' ≠ name) (_translated_languages self) →
     get_language_by_name self name
     = inl (ValueError ("No language with name found: " +:+ name)))
  ∧ (∀ i L, _translated_languages self !! i = Some L →
     Forall (λ L', abbr L' ≠ abbr L) (take i (_translated_languages self)) →
     get_language_by_abbr self (abbr L) = inr L)
  ∧ (∀ a, Forall (λ L', abbr L' ≠ a) (_translated_languages self) →
     get_language_by_abbr self a
     = inl (ValueError ("No language with abbreviation "
                        +:+ String "034"%char a
                        +:+ String "034"%char " found"))).
Proof.
  unfold get_language_by_name, get_language_by_abbr.
  repeat split.
  - intros i L Hi Hb. rewrite <- (take_drop_middle _ _ _ Hi).
    rewrite (next_filter_first (λ x, bool_decide (name_en x = name_en L))).
    + done.
    + eapply Forall_impl; [exact Hb|]. intros L' HL'. by apply bool_decide_eq_false.
    + by apply bool_decide_eq_true.
  - intros name Hn.
    rewrite (next_filter_none (λ x, bool_decide (name_en x = name))); [done|].
    eapply Forall_impl; [exact Hn|]. intros L' HL'. by apply bool_decide_eq_false.
  - intros i L Hi Hb. rewrite <- (take_drop_middle _ _ _ Hi).
    rewrite (next_filter_first (λ x, bool_decide (abbr x = abbr L))).
    + done.
    + eapply Forall_impl; [exact Hb|]. intros L' HL'. by apply bool_decide_eq_false.
    + by apply bool_decide_eq_true.
  - intros a Ha.
    rewrite (next_filter_none (λ x, bool_decide (abbr x = a))); [done|].
    eapply Forall_impl; [exact Ha|]. intros L' HL'. by apply bool_decide_eq_false.
Qed.

(** C6 as stated fails when two records share an English name: loading
    [locales_portuguese] gives the registry [pt; pt_BR], both named
    [Portuguese]; the lookup of the name of [pt_BR] returns [pt]. *)
Lemma lookup_by_name_misses_second_duplicate :
  TranslationHandler_init Fixtures.locales_portuguese
  = inr Fixtures.portuguese_handler
  ∧ Fixtures.portuguese "pt_BR" ∈ _translated_languages Fixtures.portuguese_handler
  ∧ get_language_by_name Fixtures.portuguese_handler
      (name_en (Fixtures.portuguese "pt_BR"))
    = inr (Fixtures.portuguese "pt")
  ∧ get_language_by_name Fixtures.portuguese_handler
      (name_en (Fixtures.portuguese "pt_BR"))
    ≠ inr (Fixtures.portuguese "pt_BR").
Proof.
  split; [by vm_compute|]. split; [|split].
  - unfold Fixtures.portuguese_handler; simpl. set_solver.
  - by vm_compute.
  - intros H. apply (f_equal (λ r, match r with
                                   | inr L => abbr L
                                   | inl _ => ""
                                   end)) in H.
    vm_compute in H. discriminate.
Qed.

(** ** The catalog loader *)

Section Loader.

Context (fs : LocalesDir) (total_messages : Z)
        (mappings : list (gmap string string)).

Lemma abbr_is_unfold short_form (y : gmap string string) :
  abbr_is short_form y =
  match y !! "abbr" with
  | Some a => inr (bool_decide (a = short_form))
  | None => inl (KeyError "abbr")
  end.
Proof. unfold abbr_is, getitem. py_unfold. by destruct (y !! "abbr"). Qed.

Lemma next_filter_abbr_found short_form x :
  next_filter (abbr_is short_form) mappings = inr x →
  x ∈ mappings ∧ x !! "abbr" = Some short_form.
Proof.
  induction mappings as [|y ms IH]; simpl; [done|].
  rewrite abbr_is_unfold. py_unfold.
  destruct (y !! "abbr") as [a|] eqn:Ha; [|done].
  case_bool_decide as Heq.
  - intros [= <-]. split; [left|]. by rewrite Ha, Heq.
  - intros H. destruct (IH H) as [Hin Hx]. split; [by right|done].
Qed.

(** No entry for a directory: the search of line 58 raises. *)
Lemma next_filter_abbr_missing short_form :
  Forall (λ x, x !! "abbr" ≠ Some short_form) mappings →
  ∃ e, next_filter (abbr_is short_form) mappings = inl e.
Proof.
  intros Hall. induction Hall as [|y ms Hy _ IH]; simpl.
  - by eexists.
  - rewrite abbr_is_unfold. py_unfold.
    destruct (y !! "abbr") as [a|] eqn:Ha; [|by eexists].
    case_bool_decide as Heq; [|exact IH]. by subst.
Qed.

Lemma load_language_missing short_form :
  Forall (λ x, x !! "abbr" ≠ Some short_form) mappings →
  ∃ e, load_language fs total_messages mappings short_form = inl e.
Proof.
  intros Hall. destruct (next_filter_abbr_missing _ Hall) as [e He].
  exists e. unfold load_language.
  rewrite He. reflexivity.
Qed.

(** What one successful iteration stores. *)
Lemma load_language_loaded short_form L :
  load_language fs total_messages mappings short_form = inr L →
  abbr L = short_form
  ∧ (abbr L = "en" → translation_percent L = 100)
  ∧ (abbr L ≠ "en" →
     ∃ n, _get_catalog_size (translation L) = inr n
          ∧ translation_percent_of n total_messages
            = inr (translation_percent L)).
Proof.
  unfold load_language.
  destruct (next_filter (abbr_is short_form) mappings) as [e|x] eqn:Hx;
    [done|].
  apply next_filter_abbr_found in Hx as [_ Hx].
  unfold getitem. py_unfold. rewrite Hx.
  destruct (x !! "lang") as [lang|]; [|done].
  unfold try_except_FileNotFoundError.
  destruct (gettext_translation fs short_form lang) as [[]|t]; try done.
  case_bool_decide as Hen.
  - intros [= <-]. simpl. by repeat split.
  - destruct (_get_catalog_size t) as [[]|n] eqn:Hn; try done.
    destruct (translation_percent_of n total_messages) as [[]|p] eqn:Hp;
      try done.
    intros [= <-]. simpl. repeat split; [done|]. intros _. by exists n.
Qed.

(** The loop appends, in order, what each iteration stores, and stops at
    the first iteration that raises. *)
Lemma load_languages_loaded defined_languages languages result :
  load_languages fs total_messages mappings defined_languages languages
  = inr result →
  ∃ new, result = languages ++ new
    ∧ Forall2 (λ short_form L,
                 load_language fs total_messages mappings short_form = inr L)
        defined_languages new.
Proof.
  revert languages.
  induction defined_languages as [|sf rest IH]; intros languages; simpl.
  - intros [= <-]. exists []. by rewrite app_nil_r.
  - py_unfold.
    destruct (load_language fs total_messages mappings sf) as [e|L] eqn:HL;
      [done|].
    intros H. destruct (IH _ H) as (new & -> & Hnew).
    exists (L :: new). split; [by rewrite <- app_assoc|by constructor].
Qed.

Lemma load_languages_raises defined_languages languages short_form e :
  short_form ∈ defined_languages →
  load_language fs total_messages mappings short_form = inl e →
  ∃ e', load_languages fs total_messages mappings defined_languages languages
        = inl e'.
Proof.
  intros Hin He. revert languages.
  induction defined_languages as [|sf rest IH]; intros languages; simpl.
  - by apply elem_of_nil in Hin.
  - py_unfold.
    destruct (load_language fs total_messages mappings sf) as [e0|L] eqn:HL;
      [by eexists|].
    apply elem_of_cons in Hin as [->|Hin]; [congruence|]. by apply IH.
Qed.

End Loader.

(** Every record of a loaded registry comes from one iteration of the loop
    over the qualifying directory names. *)
Lemma TranslationHandler_init_loaded (fs : LocalesDir) (self : TranslationHandler) :
  TranslationHandler_init fs = inr self →
  ∃ mappings,
    _get_total_active_messages fs = inr (_total_messages self)
    ∧ languages_json fs = inr mappings
    ∧ Forall2 (λ short_form L,
                 load_language fs (_total_messages self) mappings short_form
                 = inr L)
        (_provided_translations fs) (_translated_languages self).
Proof.
  unfold TranslationHandler_init, _get_translations, _load_language_mappings.
  py_unfold.
  destruct (_get_total_active_messages fs) as [|N]; [done|].
  destruct (languages_json fs) as [|mappings]; [done|].
  destruct (load_languages _ _ _ _ _) as [|result] eqn:Hres; [done|].
  intros [= <-]. simpl.
  apply load_languages_loaded in Hres as (new & -> & Hnew).
  by exists mappings.
Qed.

(** C5: in every registry that loading produces, a record whose
    abbreviation is [en] has the percentage 100, whatever its catalog
    holds. *)
Theorem base_language_is_complete (fs : LocalesDir) (self : TranslationHandler)
    (L : Language) :
  TranslationHandler_init fs = inr self →
  L ∈ _translated_languages self →
  abbr L = "en" →
  translation_percent L = 100.
Proof.
  intros Hinit HL Hen.
  apply TranslationHandler_init_loaded in Hinit as (ms & _ & _ & Hall).
  apply list_elem_of_lookup in HL as [i Hi].
  destruct (Forall2_lookup_r _ _ _ _ _ Hall Hi) as (short_form & _ & Hload).
  apply load_language_loaded in Hload as (_ & H100 & _). by apply H100.
Qed.

Lemma base_language_is_complete_witness :
  TranslationHandler_init Fixtures.locales_small = inr Fixtures.small_handler
  ∧ Fixtures.english ∈ _translated_languages Fixtures.small_handler
  ∧ translation_percent Fixtures.english = 100.
Proof.
  assert (Hinit : TranslationHandler_init Fixtures.locales_small
                  = inr Fixtures.small_handler) by (vm_compute; reflexivity).
  assert (Hin : Fixtures.english ∈ _translated_languages Fixtures.small_handler)
    by (right; left).
  split; [exact Hinit|]. split; [exact Hin|].
  apply (base_language_is_complete Fixtures.locales_small
           Fixtures.small_handler Fixtures.english Hinit Hin).
  reflexivity.
Defined.

(** C7: a qualifying directory that no entry of [languages.json] names by
    its [abbr] makes loading raise: [TranslationHandler()] returns no
    handler, and the module body, which builds it, no process. *)
Theorem unmapped_directory_is_fatal (fs : LocalesDir)
    (mappings : list (gmap string string)) (short_form : string) :
  languages_json fs = inr mappings →
  short_form ∈ listdir fs →
  is_translation_file short_form = true →
  Forall (λ x, x !! "abbr" ≠ Some short_form) mappings →
  ∃ e, TranslationHandler_init fs = inl e ∧ import_module fs = inl e.
Proof.
  intros Hjson Hin Hq Hnone.
  assert (∃ e, TranslationHandler_init fs = inl e) as [e He].
  { unfold TranslationHandler_init, _get_translations, _load_language_mappings.
    py_unfold.
    destruct (_get_total_active_messages fs) as [e|N]; [by eexists|].
    rewrite Hjson.
    destruct (load_language_missing fs N mappings short_form Hnone) as [e He].
    assert (Hdef : short_form ∈ _provided_translations fs).
    { unfold _provided_translations. apply list_elem_of_filter. by split. }
    destruct (load_languages_raises fs N mappings _ [] _ _ Hdef He) as [e' He'].
    rewrite He'. by eexists. }
  exists e. split; [done|]. unfold import_module. py_unfold. by rewrite He.
Qed.

Lemma unmapped_directory_is_fatal_witness :
  ∃ e, TranslationHandler_init Fixtures.locales_with_xx = inl e
       ∧ import_module Fixtures.locales_with_xx = inl e.
Proof.
  apply (unmapped_directory_is_fatal Fixtures.locales_with_xx
           [ {[ "abbr" := "en"; "lang" := "English" ]};
             {[ "abbr" := "de"; "lang" := "German";
                "translated_lang" := "Deutsch" ]} ] "xx").
  - reflexivity.
  - right; left.
  - reflexivity.
  - repeat constructor; vm_compute; discriminate.
Defined.

Example unmapped_directory_raises_StopIteration :
  import_module Fixtures.locales_with_xx = inl StopIteration.
Proof. vm_compute. reflexivity. Qed.

(** ** The reference catalog *)

Section Substring.

Lemma append_cons (c : ascii) (s t : string) :
  String c s +:+ t = String c (s +:+ t).
Proof. reflexivity. Qed.

Lemma append_empty (t : string) : "" +:+ t = t.
Proof. reflexivity. Qed.

Lemma prefix_append (s1 s2 : string) :
  String.prefix s1 s2 = true ↔ ∃ after, s2 = s1 +:+ after.
Proof.
  revert s2. induction s1 as [|a s1 IH]; intros s2; simpl.
  - destruct s2; simpl; split; eauto.
  - setoid_rewrite append_cons. destruct s2 as [|b s2]; simpl.
    + split; [done|]. by intros [after Hs].
    + destruct (ascii_dec a b) as [->|Hab].
      * rewrite IH. split; intros [after Hs]; exists after; congruence.
      * split; [done|]. intros [after Hs]. congruence.
Qed.

(** [needle in haystack] holds exactly when the haystack is some text,
    the needle, and some more text. *)
Lemma contains_append (needle haystack : string) :
  PyStr.contains needle haystack = true
  ↔ ∃ before after, haystack = before +:+ needle +:+ after.
Proof.
  induction haystack as [|c rest IH]; cbn [PyStr.contains].
  - rewrite orb_false_r, prefix_append. split.
    + intros [after Hs]. by exists "", after.
    + intros (before & after & Hs). destruct before; [by exists after|done].
  - rewrite orb_true_iff, prefix_append, IH. split.
    + intros [[after Hs]|(before & after & Hs)].
      * by exists "", after.
      * exists (String c before), after. rewrite append_cons. by rewrite Hs.
    + intros (before & after & Hs). destruct before as [|c' before].
      * left. by exists after.
      * right. exists before, after. rewrite append_cons in Hs. congruence.
Qed.

Lemma contains_msgid (line : string) :
  PyStr.contains "msgid" line = true ↔ is_message_id_line line.
Proof. apply contains_append. Qed.

End Substring.

Section Lines.

Lemma append_assoc (s t u : string) : (s +:+ t) +:+ u = s +:+ (t +:+ u).
Proof.
  induction s as [|c s IH]; [done|]. by rewrite !append_cons, IH.
Qed.

Lemma concat_cons (line : string) (lines : list string) :
  String.concat "" (line :: lines) = line +:+ String.concat "" lines.
Proof.
  destruct lines; simpl; [|done].
  induction line as [|c line IH]; [done|]. by rewrite append_cons, <- IH.
Qed.

Lemma append_nil_r (s : string) : s +:+ "" = s.
Proof. induction s as [|c s IH]; [done|]. by rewrite append_cons, IH. Qed.

Lemma contains_CR_cons (c : ascii) (rest : string) :
  PyStr.contains (String PyStr.CR "") (String c rest)
  = Ascii.eqb c PyStr.CR || PyStr.contains (String PyStr.CR "") rest.
Proof.
  cbn [PyStr.contains String.prefix].
  destruct (ascii_dec PyStr.CR c) as [<-|Hc].
  - by destruct rest.
  - destruct (Ascii.eqb_spec c PyStr.CR) as [->|_]; done.
Qed.

Lemma readlines_from_cons (cur : string) (c : ascii) (rest : string) :
  Ascii.eqb c PyStr.CR = false →
  PyStr.readlines_from cur (String c rest)
  = if Ascii.eqb c PyStr.LF
    then (cur +:+ String PyStr.LF "") :: PyStr.readlines_from "" rest
    else PyStr.readlines_from (cur +:+ String c "") rest.
Proof. intros Hc. cbn [PyStr.readlines_from]. by rewrite Hc. Qed.

(** The lines of a text without carriage returns are a split of the
    text: put together again, they give the text. *)
Lemma readlines_from_concat (cur text : string) :
  PyStr.contains (String PyStr.CR "") text = false →
  String.concat "" (PyStr.readlines_from cur text) = cur +:+ text.
Proof.
  revert cur. induction text as [|c rest IH]; intros cur Hcr.
  - rewrite append_nil_r. by destruct cur.
  - rewrite contains_CR_cons in Hcr.
    apply orb_false_elim in Hcr as [Hc Hrest].
    rewrite (readlines_from_cons _ _ _ Hc).
    destruct (Ascii.eqb_spec c PyStr.LF) as [->|_].
    + rewrite concat_cons, (IH "" Hrest). apply append_assoc.
    + rewrite (IH _ Hrest). apply append_assoc.
Qed.

Lemma readlines_concat (text : string) :
  PyStr.contains (String PyStr.CR "") text = false →
  String.concat "" (PyStr.readlines text) = text.
Proof. apply readlines_from_concat. Qed.

End Lines.

(** The comprehension of line 110 keeps the lines the specification
    counts. *)
Lemma msgid_lines_counted (lines : list string) :
  message_id_lines lines
    (length (filter (λ line, PyStr.contains "msgid" line = true) lines)).
Proof.
  induction lines as [|line lines IH]; [constructor|].
  rewrite filter_cons. case_decide as Hline.
  - simpl. constructor; [by apply contains_msgid|done].
  - apply message_id_lines_miss; [|done]. by rewrite <- contains_msgid.
Qed.

(** The count is determined by the lines. *)
Lemma message_id_lines_functional (lines : list string) (n n' : nat) :
  message_id_lines lines n → message_id_lines lines n' → n = n'.
Proof.
  intros Hn. revert n'.
  induction Hn as [|line lines n Hl _ IH|line lines n Hl _ IH];
    intros n' Hn'; inversion Hn'; subst; try done.
  - f_equal. by apply IH.
  - by apply IH.
Qed.

(** C8: for every text of [base.pot], the reference count is the number
    of its lines that contain the message-id marker, minus one (for the
    header entry). *)
Theorem total_active_messages_counts_msgid_lines (fs : LocalesDir)
    (text : string) :
  base_pot fs = inr text →
  ∃ n, message_id_lines (PyStr.readlines text) n
       ∧ _get_total_active_messages fs = inr (Z.of_nat n - 1).
Proof.
  intros Htext. eexists. split; [apply msgid_lines_counted|].
  unfold _get_total_active_messages. py_unfold. by rewrite Htext.
Qed.

Lemma total_active_messages_counts_msgid_lines_witness :
  ∃ n, message_id_lines (PyStr.readlines (Fixtures.pot_with 2)) n
       ∧ _get_total_active_messages Fixtures.locales_small
         = inr (Z.of_nat n - 1).
Proof.
  apply (total_active_messages_counts_msgid_lines Fixtures.locales_small
           (Fixtures.pot_with 2)).
  reflexivity.
Defined.

Example total_active_messages_of_small_pot :
  PyStr.readlines (Fixtures.pot_with 2)
  = [ "msgid " +:+ String "034" (String "034" (String PyStr.LF ""));
      "msgstr " +:+ String "034" (String "034" (String PyStr.LF ""));
      String PyStr.LF "";
      "msgid " +:+ String "034" ("a" +:+ String "034" (String PyStr.LF ""));
      "msgstr " +:+ String "034" (String "034" (String PyStr.LF ""));
      String PyStr.LF "";
      "msgid " +:+ String "034" ("aa" +:+ String "034" (String PyStr.LF ""));
      "msgstr " +:+ String "034" (String "034" (String PyStr.LF ""));
      String PyStr.LF "" ]
  ∧ _get_total_active_messages Fixtures.locales_small = inr 2.
Proof. split; vm_compute; reflexivity. Qed.

(** ** The stored percentage *)

(** Lines 72-74 on a few counts. *)
Example percent_5_of_10 : translation_percent_of 5 10 = inr 50.
Proof. vm_compute. reflexivity. Qed.

Example percent_11_of_10 : translation_percent_of 11 10 = inr 100.
Proof. vm_compute. reflexivity. Qed.

Example percent_29_of_100 : translation_percent_of 29 100 = inr 28.
Proof. vm_compute. reflexivity. Qed.

Example percent_29_of_50 : translation_percent_of 29 50 = inr 57.
Proof. vm_compute. reflexivity. Qed.

Example percent_of_zero_messages :
  translation_percent_of 3 0 = inl ZeroDivisionError.
Proof. vm_compute. reflexivity. Qed.

(** C3 on the code: with a reference count of 100 and 29 translated
    entries the loader stores 28, where [min(100, floor(100 * 29 / 100))] is
    29: the quotient [29 / 100] is rounded to a double below 0.29, its
    product with 100 to a double below 29, and [int] truncates. *)
Theorem stored_percent_29_of_100 :
  _get_total_active_messages Fixtures.locales_29_of_100 = inr 100
  ∧ _get_catalog_size
      (GNUTranslations (Fixtures.catalog_of_size 29) Fixtures.germanic_plural
         None) = inr 29%nat
  ∧ loaded_completeness Fixtures.locales_29_of_100
    = inr [("de", 28); ("en", 100)]
  ∧ Z.min 100 (100 * 29 / 100) = 29.
Proof. repeat split; vm_compute; reflexivity. Qed.

(** The two computations that C3 names do come out as it says. *)
Example stored_percent_5_and_11_of_10 :
  loaded_completeness
    (Fixtures.locales (Fixtures.pot_with 10) (Fixtures.catalog_of_size 5))
  = inr [("de", 50); ("en", 100)]
  ∧ loaded_completeness
      (Fixtures.locales (Fixtures.pot_with 10) (Fixtures.catalog_of_size 11))
    = inr [("de", 100); ("en", 100)].
Proof. split; vm_compute; reflexivity. Qed.

(** C4 on the code: with a [base.pot] that has no [msgid] line the
    reference count is [-1], loading succeeds, and a language with one
    translated entry gets the percentage [-100]. *)
Theorem stored_percent_of_empty_reference :
  _get_total_active_messages Fixtures.locales_empty_pot = inr (-1)
  ∧ loaded_completeness Fixtures.locales_empty_pot
    = inr [("de", -100); ("en", 100)].
Proof. split; vm_compute; reflexivity. Qed.

(** *** Bounds, for a reference catalog with at least one message *)

Section Bounds.

Lemma binary_round_aux_sign (mx ex : Z) (lx : location) :
  not_negative (binary_round_aux PyNum.prec PyNum.emax false mx ex lx).
Proof.
  unfold binary_round_aux.
  destruct (shr_fexp _ _ mx ex lx) as [mrs' e'].
  destruct (shr_fexp _ _ _ e' loc_Exact) as [mrs'' e''].
  destruct (shr_m mrs''); simpl; try done.
  by destruct (_ <=? _).
Qed.

Lemma int_truediv_sign (a b : Z) (q : spec_float) :
  0 ≤ a → 1 ≤ b → PyNum.int_truediv a b = inr q → not_negative q.
Proof.
  intros Ha Hb. unfold PyNum.int_truediv.
  replace (a <? 0) with false by (symmetry; apply Z.ltb_ge; lia).
  replace (b <? 0) with false by (symmetry; apply Z.ltb_ge; lia).
  cbn [xorb]. destruct b; [lia| |lia]. destruct a.
  - by intros [= <-].
  - destruct (SFdiv_core_binary _ _ _ _ _ _) as [[mz ez] lz].
    pose proof (binary_round_aux_sign mz ez lz) as Hs.
    destruct (binary_round_aux _ _ _ _ _ _); py_unfold; intros [= <-]; done.
  - lia.
Qed.

Lemma float_mul_int_sign (q : spec_float) :
  not_negative q → not_negative (PyNum.float_mul_int q 100).
Proof.
  unfold PyNum.float_mul_int.
  change (PyNum.float_of_int 100)
    with (S754_finite false 7036874417766400 (-46)).
  destruct q as [s|s| |s m e]; simpl; try done.
  intros ->. apply binary_round_aux_sign.
Qed.

Lemma int_of_float_sign (x : spec_float) (p : Z) :
  not_negative x → PyNum.int_of_float x = inr p → 0 ≤ p.
Proof.
  destruct x as [s|s| |s m e]; simpl; py_unfold; try done.
  - by intros _ [= <-].
  - intros -> [= <-]. destruct e.
    + by apply Z.shiftl_nonneg.
    + by apply Z.shiftl_nonneg.
    + by apply Z.shiftr_nonneg.
Qed.

(** Lines 72-74 give a percentage between 0 and 100 whenever the
    reference count is at least 1. *)
Lemma translation_percent_of_bounds (n : nat) (N p : Z) :
  1 ≤ N → translation_percent_of n N = inr p → 0 ≤ p ≤ 100.
Proof.
  intros HN. unfold translation_percent_of. py_unfold.
  destruct (PyNum.int_truediv (Z.of_nat n) N) as [|q] eqn:Hq; [done|].
  destruct (PyNum.int_of_float _) as [|p'] eqn:Hp; [done|].
  intros [= <-].
  apply int_truediv_sign in Hq; [|lia|done].
  apply float_mul_int_sign in Hq.
  pose proof (int_of_float_sign _ _ Hq Hp). lia.
Qed.

End Bounds.

(** With a reference catalog of at least one message besides the header,
    every loaded language has a percentage between 0 and 100. *)
Theorem loaded_percent_within_bounds (fs : LocalesDir)
    (self : TranslationHandler) (L : Language) :
  TranslationHandler_init fs = inr self →
  1 ≤ _total_messages self →
  L ∈ _translated_languages self →
  0 ≤ translation_percent L ≤ 100.
Proof.
  intros Hinit HN HL.
  apply TranslationHandler_init_loaded in Hinit as (ms & _ & _ & Hall).
  apply list_elem_of_lookup in HL as [i Hi].
  destruct (Forall2_lookup_r _ _ _ _ _ Hall Hi) as (short_form & _ & Hload).
  apply load_language_loaded in Hload as (_ & Hen & Hother).
  destruct (decide (abbr L = "en")) as [Heq|Hne].
  - rewrite (Hen Heq). lia.
  - destruct (Hother Hne) as (n & _ & Hp).
    by apply translation_percent_of_bounds in Hp.
Qed.

Lemma loaded_percent_within_bounds_witness :
  0 ≤ translation_percent Fixtures.german ≤ 100.
Proof.
  apply (loaded_percent_within_bounds Fixtures.locales_small
           Fixtures.small_handler Fixtures.german).
  - vm_compute. reflexivity.
  - simpl. lia.
  - left.
Defined.

(** ** Abbreviations in a loaded registry *)

(** The abbreviations of a loaded registry are the qualifying directory
    names, in the order of [os.listdir]. *)
Lemma loaded_abbreviations (fs : LocalesDir) (self : TranslationHandler) :
  TranslationHandler_init fs = inr self →
  map abbr (_translated_languages self) = _provided_translations fs.
Proof.
  intros Hinit.
  apply TranslationHandler_init_loaded in Hinit as (ms & _ & _ & Hall).
  induction Hall as [|short_form L dirs langs Hload _ IH]; [done|].
  simpl. apply load_language_loaded in Hload as (-> & _). by rewrite IH.
Qed.

(** A directory listing has no duplicates, so in a loaded registry a lookup
    by abbreviation returns the very record asked for. *)
Theorem loaded_lookup_by_abbr (fs : LocalesDir) (self : TranslationHandler)
    (L : Language) :
  TranslationHandler_init fs = inr self →
  NoDup (listdir fs) →
  L ∈ _translated_languages self →
  get_language_by_abbr self (abbr L) = inr L.
Proof.
  intros Hinit Hdir HL.
  assert (Hnd : NoDup (map abbr (_translated_languages self))).
  { rewrite (loaded_abbreviations _ _ Hinit). by apply NoDup_filter. }
  apply list_elem_of_lookup in HL as [i Hi].
  unfold get_language_by_abbr.
  rewrite <- (take_drop_middle _ _ _ Hi) in Hnd |- *.
  rewrite (next_filter_first (λ x, bool_decide (abbr x = abbr L))); [done| |].
  - rewrite map_app in Hnd. apply NoDup_app in Hnd as (_ & Hdisj & _).
    apply Forall_forall. intros L' HL'. apply bool_decide_eq_false.
    intros Heq. apply (Hdisj (abbr L')).
    + by apply (list_elem_of_fmap_2 abbr).
    + rewrite Heq. simpl. left.
  - by apply bool_decide_eq_true.
Qed.

Lemma loaded_lookup_by_abbr_witness :
  get_language_by_abbr Fixtures.portuguese_handler
    (abbr (Fixtures.portuguese "pt_BR"))
  = inr (Fixtures.portuguese "pt_BR").
Proof.
  apply (loaded_lookup_by_abbr Fixtures.locales_portuguese
           Fixtures.portuguese_handler (Fixtures.portuguese "pt_BR")).
  - vm_compute. reflexivity.
  - simpl. apply NoDup_cons_2; [|apply NoDup_singleton].
    rewrite list_elem_of_singleton. discriminate.
  - right; left.
Defined.

(** * Further properties of the module *)

(** ** What a lookup can return *)

Section LookupOutcome.

Context {A : Type} (p : A → bool).

(** [next(filter(p, l))] either returns an element of [l] that satisfies
    [p] and has only failing elements before it, or raises [StopIteration]
    on a list without any satisfying element. *)
Lemma next_filter_outcome (l : list A) :
  match next_filter (λ y, mret (p y)) l with
  | inr x =>
      ∃ before after,
        l = before ++ x :: after
        ∧ Forall (λ y, p y = false) before ∧ p x = true
  | inl e => e = StopIteration ∧ Forall (λ y, p y = false) l
  end.
Proof.
  induction l as [|y l IH]; simpl; py_unfold; [done|].
  destruct (p y) eqn:Hy.
  - by exists [], l.
  - destruct (next_filter _ l) as [e|x].
    + destruct IH as [-> IH]. by split; [|constructor].
    + destruct IH as (before & after & -> & Hb & Hx).
      exists (y :: before), after. by repeat split; [constructor|].
Qed.

End LookupOutcome.

Lemma get_language_by_name_found (self : TranslationHandler) (s : string)
    (L : Language) :
  get_language_by_name self s = inr L →
  L ∈ _translated_languages self ∧ name_en L = s.
Proof.
  unfold get_language_by_name.
  pose proof (next_filter_outcome (λ x, bool_decide (name_en x = s))
                (_translated_languages self)) as H.
  destruct (next_filter _ _) as [e|L']; simpl; [done|].
  intros [= ->]. destruct H as (before & after & -> & _ & HL).
  apply bool_decide_eq_true in HL. split; [|done].
  apply elem_of_app. right. left.
Qed.

Lemma get_language_by_name_raises (self : TranslationHandler) (s : string)
    (e : Exception) :
  get_language_by_name self s = inl e →
  e = ValueError ("No language with name found: " +:+ s)
  ∧ Forall (λ L, name_en L ≠ s) (_translated_languages self).
Proof.
  unfold get_language_by_name.
  pose proof (next_filter_outcome (λ x, bool_decide (name_en x = s))
                (_translated_languages self)) as H.
  destruct (next_filter _ _) as [e'|L']; simpl; [|done].
  intros [= <-]. destruct H as [_ H]. split; [done|].
  eapply Forall_impl; [exact H|]. intros L HL.
  by apply bool_decide_eq_false in HL.
Qed.

Lemma get_language_by_abbr_found (self : TranslationHandler) (s : string)
    (L : Language) :
  get_language_by_abbr self s = inr L →
  L ∈ _translated_languages self ∧ abbr L = s.
Proof.
  unfold get_language_by_abbr.
  pose proof (next_filter_outcome (λ x, bool_decide (abbr x = s))
                (_translated_languages self)) as H.
  destruct (next_filter _ _) as [e|L']; simpl; [done|].
  intros [= ->]. destruct H as (before & after & -> & _ & HL).
  apply bool_decide_eq_true in HL. split; [|done].
  apply elem_of_app. right. left.
Qed.

Lemma get_language_by_abbr_raises (self : TranslationHandler) (s : string)
    (e : Exception) :
  get_language_by_abbr self s = inl e →
  e = ValueError ("No language with abbreviation "
                  +:+ String "034"%char s
                  +:+ String "034"%char " found")
  ∧ Forall (λ L, abbr L ≠ s) (_translated_languages self).
Proof.
  unfold get_language_by_abbr.
  pose proof (next_filter_outcome (λ x, bool_decide (abbr x = s))
                (_translated_languages self)) as H.
  destruct (next_filter _ _) as [e'|L']; simpl; [|done].
  intros [= <-]. destruct H as [_ H]. split; [done|].
  eapply Forall_impl; [exact H|]. intros L HL.
  by apply bool_decide_eq_false in HL.
Qed.

(** A lookup by English name returns a record of the registry with that
    name, or raises [ValueError] with the message of line 121, and then no
    record has the name; [StopIteration] never leaves the method.  The same
    holds for the lookup by abbreviation. *)
Theorem lookup_outcome (self : TranslationHandler) (s : string) :
  match get_language_by_name self s with
  | inr L => L ∈ translated_languages self ∧ name_en L = s
  | inl e =>
      e = ValueError ("No language with name found: " +:+ s)
      ∧ Forall (λ L, name_en L ≠ s) (translated_languages self)
  end
  ∧ match get_language_by_abbr self s with
    | inr L => L ∈ translated_languages self ∧ abbr L = s
    | inl e =>
        e = ValueError ("No language with abbreviation "
                        +:+ String "034"%char s
                        +:+ String "034"%char " found")
        ∧ Forall (λ L, abbr L ≠ s) (translated_languages self)
    end.
Proof.
  unfold translated_languages. split.
  - destruct (get_language_by_name self s) as [e|L] eqn:H.
    + by apply get_language_by_name_raises.
    + by apply get_language_by_name_found.
  - destruct (get_language_by_abbr self s) as [e|L] eqn:H.
    + by apply get_language_by_abbr_raises.
    + by apply get_language_by_abbr_found.
Qed.

(** ** [is_match] and [json] *)

Lemma is_match_true (L : Language) (s : string) :
  is_match L s = true ↔ s = name_en L ∨ translated_lang L = Some s.
Proof.
  unfold is_match.
  case_bool_decide as Hn; [split; [intros _; by left|done]|].
  case_bool_decide as Ht; [split; [intros _; by right|done]|].
  split; [done|]. by intros [->|?].
Qed.

(** The record that a lookup by name returns is one that [is_match]
    accepts for the name looked up, and its [json()] is that name. *)
Theorem found_language_matches (self : TranslationHandler) (s : string)
    (L : Language) :
  get_language_by_name self s = inr L →
  is_match L s = true ∧ json L = s.
Proof.
  intros [_ HL]%get_language_by_name_found. split; [|done].
  apply is_match_true. by left.
Qed.

Lemma found_language_matches_witness :
  is_match Fixtures.german "German" = true ∧ json Fixtures.german = "German".
Proof.
  apply (found_language_matches Fixtures.small_handler "German"
           Fixtures.german).
  reflexivity.
Defined.

(** In a registry whose English names are pairwise different, the name
    that [json()] gives for a record leads back to that record. *)
Theorem json_lookup_round_trip (self : TranslationHandler) (L : Language) :
  NoDup (map name_en (translated_languages self)) →
  L ∈ translated_languages self →
  get_language_by_name self (json L) = inr L.
Proof.
  unfold translated_languages, json. intros Hnd HL.
  apply list_elem_of_lookup in HL as [i Hi].
  unfold get_language_by_name.
  rewrite <- (take_drop_middle _ _ _ Hi) in Hnd |- *.
  rewrite (next_filter_first (λ x, bool_decide (name_en x = name_en L)));
    [done| |].
  - rewrite map_app in Hnd. apply NoDup_app in Hnd as (_ & Hdisj & _).
    apply Forall_forall. intros L' HL'. apply bool_decide_eq_false.
    intros Heq. apply (Hdisj (name_en L')).
    + by apply (list_elem_of_fmap_2 name_en).
    + rewrite Heq. simpl. left.
  - by apply bool_decide_eq_true.
Qed.

Lemma json_lookup_round_trip_witness :
  get_language_by_name Fixtures.small_handler (json Fixtures.english)
  = inr Fixtures.english.
Proof.
  apply (json_lookup_round_trip Fixtures.small_handler Fixtures.english).
  - simpl. apply NoDup_cons_2; [|apply NoDup_singleton].
    rewrite list_elem_of_singleton. discriminate.
  - right; left.
Defined.

(** ** The loader, one directory at a time *)

Section Iteration.

Context (fs : LocalesDir) (total_messages : Z)
        (mappings : list (gmap string string)).

Lemma next_filter_abbr_first short_form entry :
  first_entry_for mappings short_form entry →
  next_filter (abbr_is short_form) mappings = inr entry.
Proof.
  intros (before & after & -> & Hb & He).
  induction Hb as [|y before (a & Ha & Hne) _ IH]; simpl;
    rewrite abbr_is_unfold; py_unfold.
  - rewrite He. by rewrite bool_decide_eq_true_2.
  - rewrite Ha. by rewrite bool_decide_eq_false_2.
Qed.

Lemma next_filter_abbr_is_first short_form entry :
  next_filter (abbr_is short_form) mappings = inr entry →
  first_entry_for mappings short_form entry.
Proof.
  unfold first_entry_for.
  induction mappings as [|y ms IH]; simpl; [done|].
  rewrite abbr_is_unfold. py_unfold.
  destruct (y !! "abbr") as [a|] eqn:Ha; [|done].
  case_bool_decide as Heq.
  - intros [= <-]. exists [], ms. subst. by repeat split.
  - intros H. destruct (IH H) as (before & after & -> & Hb & He).
    exists (y :: before), after. repeat split; [|done].
    constructor; [by exists a|done].
Qed.

(** The record of a successful iteration, field by field. *)
Lemma load_language_record short_form L :
  load_language fs total_messages mappings short_form = inr L →
  ∃ entry,
    first_entry_for mappings short_form entry
    ∧ abbr L = short_form
    ∧ entry !! "lang" = Some (name_en L)
    ∧ translated_lang L = entry !! "translated_lang"
    ∧ gettext_translation fs short_form (name_en L) = inr (translation L).
Proof.
  unfold load_language.
  destruct (next_filter (abbr_is short_form) mappings) as [e|x] eqn:Hx;
    [done|].
  intros HL. apply next_filter_abbr_is_first in Hx.
  exists x. split; [done|].
  destruct Hx as (before & after & _ & _ & Hx).
  revert HL. unfold getitem. py_unfold. rewrite Hx.
  destruct (x !! "lang") as [lang|]; [|done].
  unfold try_except_FileNotFoundError.
  destruct (gettext_translation fs short_form lang) as [[]|t] eqn:Ht;
    try done.
  case_bool_decide as Hen.
  - by intros [= <-].
  - destruct (_get_catalog_size t) as [[]|n]; try done.
    destruct (translation_percent_of n total_messages) as [[]|p]; try done.
    by intros [= <-].
Qed.

(** What the iteration does with an exception of [gettext.translation]. *)
Lemma load_language_translation_raises short_form entry lang e :
  first_entry_for mappings short_form entry →
  entry !! "lang" = Some lang →
  gettext_translation fs short_form lang = inl e →
  load_language fs total_messages mappings short_form
  = inl match e with
        | FileNotFoundError err =>
            FileNotFoundError
              ("Could not locate language file for '" +:+ lang +:+ "': "
               +:+ err)
        | _ => e
        end.
Proof.
  intros Hfirst Hlang Ht. unfold load_language.
  rewrite (next_filter_abbr_first _ _ Hfirst).
  destruct Hfirst as (_ & _ & _ & _ & Habbr).
  unfold getitem. py_unfold. rewrite Habbr, Hlang, Ht.
  by destruct e.
Qed.

(** The loop raises what its first failing iteration raises. *)
Lemma load_languages_first_failure before short_form after languages e :
  Forall (λ d, ∃ L, load_language fs total_messages mappings d = inr L)
    before →
  load_language fs total_messages mappings short_form = inl e →
  load_languages fs total_messages mappings (before ++ short_form :: after)
    languages = inl e.
Proof.
  intros Hb He. revert languages.
  induction Hb as [|d before [L HL] _ IH]; intros languages; simpl; py_unfold.
  - by rewrite He.
  - rewrite HL. apply IH.
Qed.

End Iteration.

Lemma TranslationHandler_init_first_failure (fs : LocalesDir) (N : Z)
    (mappings : list (gmap string string)) (before after : list string)
    (short_form : string) (e : Exception) :
  _get_total_active_messages fs = inr N →
  languages_json fs = inr mappings →
  _provided_translations fs = before ++ short_form :: after →
  Forall (λ d, ∃ L, load_language fs N mappings d = inr L) before →
  load_language fs N mappings short_form = inl e →
  TranslationHandler_init fs = inl e.
Proof.
  intros HN Hms Hdirs Hb He.
  unfold TranslationHandler_init, _get_translations, _load_language_mappings.
  py_unfold. rewrite HN, Hms, Hdirs.
  by rewrite (load_languages_first_failure fs N mappings before short_form
                after [] e Hb He).
Qed.

(** ** Load errors *)

(** Loading stops at the first qualifying directory, in listing order,
    whose catalog [gettext.translation] cannot load, and raises that
    exception; a [FileNotFoundError] is raised anew with the message of
    line 79, which names the language. *)
Theorem catalog_load_error_propagates (fs : LocalesDir) (N : Z)
    (mappings : list (gmap string string)) (before after : list string)
    (short_form lang : string) (entry : gmap string string) (e : Exception) :
  _get_total_active_messages fs = inr N →
  languages_json fs = inr mappings →
  _provided_translations fs = before ++ short_form :: after →
  Forall (λ d, ∃ L, load_language fs N mappings d = inr L) before →
  first_entry_for mappings short_form entry →
  entry !! "lang" = Some lang →
  gettext_translation fs short_form lang = inl e →
  TranslationHandler_init fs
  = inl match e with
        | FileNotFoundError err =>
            FileNotFoundError
              ("Could not locate language file for '" +:+ lang +:+ "': "
               +:+ err)
        | _ => e
        end.
Proof.
  intros HN Hms Hdirs Hb Hentry Hlang He.
  eapply TranslationHandler_init_first_failure; try done.
  by eapply load_language_translation_raises.
Qed.

Lemma catalog_load_error_propagates_witness :
  TranslationHandler_init Fixtures.locales_missing_fr
  = inl (FileNotFoundError
           ("Could not locate language file for 'French': "
            +:+ "[Errno 2] No translation file found for domain: 'base'")).
Proof.
  apply (catalog_load_error_propagates Fixtures.locales_missing_fr 2
           [Fixtures.german_entry; Fixtures.french_entry] ["de"] []
           "fr" "French" Fixtures.french_entry Fixtures.no_mo_file).
  - vm_compute. reflexivity.
  - reflexivity.
  - vm_compute. reflexivity.
  - constructor; [|constructor]. eexists. vm_compute. reflexivity.
  - exists [Fixtures.german_entry], []. split; [reflexivity|].
    split; [|vm_compute; reflexivity].
    constructor; [|constructor]. exists "de".
    split; [vm_compute; reflexivity|discriminate].
  - vm_compute. reflexivity.
  - vm_compute. reflexivity.
Defined.

(** With a reference count of zero, loading succeeds only when every
    qualifying directory is [en]: any other language makes line 72 divide by
    zero. *)
Theorem zero_reference_count_admits_only_en (fs : LocalesDir)
    (self : TranslationHandler) (L : Language) :
  TranslationHandler_init fs = inr self →
  _total_messages self = 0 →
  L ∈ translated_languages self →
  abbr L = "en".
Proof.
  unfold translated_languages. intros Hinit HN HL.
  apply TranslationHandler_init_loaded in Hinit as (ms & _ & _ & Hall).
  apply list_elem_of_lookup in HL as [i Hi].
  destruct (Forall2_lookup_r _ _ _ _ _ Hall Hi) as (short_form & _ & Hload).
  apply load_language_loaded in Hload as (_ & _ & Hother).
  destruct (decide (abbr L = "en")) as [Heq|Hne]; [done|].
  destruct (Hother Hne) as (n & _ & Hp). rewrite HN in Hp.
  unfold translation_percent_of, PyNum.int_truediv in Hp. by py_unfold.
Qed.

Lemma zero_reference_count_admits_only_en_witness :
  TranslationHandler_init Fixtures.locales_english_only
  = inr Fixtures.english_only_handler
  ∧ abbr Fixtures.english = "en".
Proof.
  assert (Hinit : TranslationHandler_init Fixtures.locales_english_only
                  = inr Fixtures.english_only_handler)
    by (vm_compute; reflexivity).
  split; [exact Hinit|].
  apply (zero_reference_count_admits_only_en Fixtures.locales_english_only
           Fixtures.english_only_handler Fixtures.english Hinit).
  - reflexivity.
  - left.
Defined.

(** ** Stored percentages *)

(** Whatever the reference count, no loaded language has a percentage
    above 100. *)
Theorem loaded_percent_at_most_100 (fs : LocalesDir)
    (self : TranslationHandler) (L : Language) :
  TranslationHandler_init fs = inr self →
  L ∈ translated_languages self →
  translation_percent L ≤ 100.
Proof.
  unfold translated_languages. intros Hinit HL.
  apply TranslationHandler_init_loaded in Hinit as (ms & _ & _ & Hall).
  apply list_elem_of_lookup in HL as [i Hi].
  destruct (Forall2_lookup_r _ _ _ _ _ Hall Hi) as (short_form & _ & Hload).
  apply load_language_loaded in Hload as (_ & Hen & Hother).
  destruct (decide (abbr L = "en")) as [Heq|Hne]; [by rewrite (Hen Heq)|].
  destruct (Hother Hne) as (n & _ & Hp).
  unfold translation_percent_of in Hp. py_unfold.
  destruct (PyNum.int_truediv _ _); [done|].
  destruct (PyNum.int_of_float _); [done|].
  injection Hp as <-. lia.
Qed.

Lemma loaded_percent_at_most_100_witness :
  translation_percent Fixtures.german ≤ 100.
Proof.
  apply (loaded_percent_at_most_100 Fixtures.locales_small
           Fixtures.small_handler Fixtures.german).
  - vm_compute. reflexivity.
  - left.
Defined.

(** A language other than [en] whose catalog has no translated entry is
    stored with 0 percent, for every reference count that lets it load. *)
Theorem untranslated_language_has_zero_percent (fs : LocalesDir)
    (self : TranslationHandler) (L : Language) :
  TranslationHandler_init fs = inr self →
  L ∈ translated_languages self →
  abbr L ≠ "en" →
  _get_catalog_size (translation L) = inr 0%nat →
  translation_percent L = 0.
Proof.
  unfold translated_languages. intros Hinit HL Hne Hsize.
  apply TranslationHandler_init_loaded in Hinit as (ms & _ & _ & Hall).
  apply list_elem_of_lookup in HL as [i Hi].
  destruct (Forall2_lookup_r _ _ _ _ _ Hall Hi) as (short_form & _ & Hload).
  apply load_language_loaded in Hload as (_ & _ & Hother).
  destruct (Hother Hne) as (n & Hn & Hp).
  rewrite Hsize in Hn. injection Hn as <-.
  unfold translation_percent_of, PyNum.int_truediv in Hp. py_unfold.
  destruct (_total_messages self); [done| |];
    simpl in Hp; by injection Hp as <-.
Qed.

Lemma untranslated_language_has_zero_percent_witness :
  translation_percent Fixtures.untranslated = 0.
Proof.
  apply (untranslated_language_has_zero_percent Fixtures.locales_untranslated
           Fixtures.untranslated_handler Fixtures.untranslated).
  - vm_compute. reflexivity.
  - left.
  - discriminate.
  - vm_compute. reflexivity.
Defined.

(** ** The shape of a loaded registry *)

(** The registry has one record for every qualifying name of the directory
    listing, in the order of the listing, and the record's abbreviation is
    that name. *)
Theorem registry_follows_listdir (fs : LocalesDir) (self : TranslationHandler) :
  TranslationHandler_init fs = inr self →
  map abbr (translated_languages self)
  = filter (λ name, is_translation_file name = true) (listdir fs)
  ∧ length (translated_languages self)
    = length (filter (λ name, is_translation_file name = true) (listdir fs)).
Proof.
  intros Hinit. pose proof (loaded_abbreviations _ _ Hinit) as Habbr.
  unfold translated_languages, _provided_translations in *.
  split; [done|]. by rewrite <- Habbr, length_map.
Qed.

Lemma registry_follows_listdir_witness :
  map abbr (translated_languages Fixtures.small_handler)
  = filter (λ name, is_translation_file name = true)
      (listdir Fixtures.locales_small)
  ∧ length (translated_languages Fixtures.small_handler)
    = length (filter (λ name, is_translation_file name = true)
                (listdir Fixtures.locales_small)).
Proof.
  apply (registry_follows_listdir Fixtures.locales_small
           Fixtures.small_handler).
  vm_compute. reflexivity.
Defined.

(** Every abbreviation of a loaded registry is a name of the directory
    listing that has two characters or is one of [pt_BR], [zh-CN] and
    [zh-TW]. *)
Theorem loaded_abbreviation_qualifies (fs : LocalesDir)
    (self : TranslationHandler) (L : Language) :
  TranslationHandler_init fs = inr self →
  L ∈ translated_languages self →
  abbr L ∈ listdir fs
  ∧ (String.length (abbr L) = 2%nat
     ∨ abbr L = "pt_BR" ∨ abbr L = "zh-CN" ∨ abbr L = "zh-TW").
Proof.
  unfold translated_languages. intros Hinit HL.
  apply (list_elem_of_fmap_2 abbr) in HL.
  change (abbr <$> _translated_languages self)
    with (map abbr (_translated_languages self)) in HL.
  rewrite (loaded_abbreviations _ _ Hinit) in HL.
  unfold _provided_translations in HL.
  apply list_elem_of_filter in HL as [Hq Hin]. split; [done|].
  unfold is_translation_file in Hq. apply orb_true_iff in Hq as [Hq|Hq].
  - left. by apply Nat.eqb_eq.
  - right. apply bool_decide_eq_true in Hq.
    rewrite !elem_of_cons, elem_of_nil in Hq. tauto.
Qed.

Lemma loaded_abbreviation_qualifies_witness :
  abbr (Fixtures.portuguese "pt_BR") ∈ listdir Fixtures.locales_portuguese
  ∧ (String.length (abbr (Fixtures.portuguese "pt_BR")) = 2%nat
     ∨ abbr (Fixtures.portuguese "pt_BR") = "pt_BR"
     ∨ abbr (Fixtures.portuguese "pt_BR") = "zh-CN"
     ∨ abbr (Fixtures.portuguese "pt_BR") = "zh-TW").
Proof.
  apply (loaded_abbreviation_qualifies Fixtures.locales_portuguese
           Fixtures.portuguese_handler (Fixtures.portuguese "pt_BR")).
  - vm_compute. reflexivity.
  - right; left.
Defined.

(** The fields of a loaded record come from the first entry of
    [languages.json] with the record's abbreviation: [name_en] is its
    [lang], [translated_lang] is its [translated_lang] or [None], and
    [translation] is what [gettext.translation] returned for the
    abbreviation and that name. *)
Theorem loaded_record_from_mapping (fs : LocalesDir)
    (self : TranslationHandler) (mappings : list (gmap string string))
    (L : Language) :
  TranslationHandler_init fs = inr self →
  languages_json fs = inr mappings →
  L ∈ translated_languages self →
  ∃ entry,
    first_entry_for mappings (abbr L) entry
    ∧ entry !! "lang" = Some (name_en L)
    ∧ translated_lang L = entry !! "translated_lang"
    ∧ gettext_translation fs (abbr L) (name_en L) = inr (translation L).
Proof.
  unfold translated_languages. intros Hinit Hms HL.
  apply TranslationHandler_init_loaded in Hinit as (ms & _ & Hms' & Hall).
  rewrite Hms in Hms'. injection Hms' as <-.
  apply list_elem_of_lookup in HL as [i Hi].
  destruct (Forall2_lookup_r _ _ _ _ _ Hall Hi) as (short_form & _ & Hload).
  apply load_language_record in Hload
    as (entry & Hfirst & <- & Hlang & Htl & Ht).
  by exists entry.
Qed.

Lemma loaded_record_from_mapping_witness :
  ∃ entry,
    first_entry_for [Fixtures.german_entry; Fixtures.french_entry]
      (abbr Fixtures.german) entry
    ∧ entry !! "lang" = Some (name_en Fixtures.german)
    ∧ translated_lang Fixtures.german = entry !! "translated_lang"
    ∧ gettext_translation Fixtures.locales_german_french
        (abbr Fixtures.german) (name_en Fixtures.german)
      = inr (translation Fixtures.german).
Proof.
  apply (loaded_record_from_mapping Fixtures.locales_german_french
           Fixtures.german_french_handler
           [Fixtures.german_entry; Fixtures.french_entry] Fixtures.german).
  - vm_compute. reflexivity.
  - reflexivity.
  - left.
Defined.

(** ** Counting the translated entries of a catalog *)

Section CatalogSize.

Context (pl : nat → Result Z) (fb : option Translations).

Implicit Types (c : gmap (string + string * nat) string).

Lemma _get_catalog_size_unfold c :
  _get_catalog_size (GNUTranslations c pl fb)
  = inr (size (filter (λ kv : (string + string * nat) * string,
                         key_truthy kv.1 ∧ kv.2 ≠ "") c)).
Proof. reflexivity. Qed.

Lemma translated_entries_lack_header c :
  filter (λ kv : (string + string * nat) * string,
            key_truthy kv.1 ∧ kv.2 ≠ "") c !! inl "" = None.
Proof.
  apply map_lookup_filter_None. right. intros v _ [Hk _]. by apply Hk.
Qed.

End CatalogSize.

(** The count never exceeds the number of catalog entries, and the header
    entry, whose message id is empty, is never part of it: a catalog with a
    header has a count below its number of entries, and the count is the
    same without the header. *)
Theorem catalog_size_leaves_header_out (c : gmap (string + string * nat) string)
    (pl : nat → Result Z) (fb : option Translations) :
  ∃ n : nat,
    _get_catalog_size (GNUTranslations c pl fb) = inr n
    ∧ (n ≤ size c)%nat
    ∧ (is_Some (c !! inl "") → (n < size c)%nat)
    ∧ _get_catalog_size (GNUTranslations (delete (inl "") c) pl fb) = inr n.
Proof.
  eexists. split; [apply _get_catalog_size_unfold|].
  assert (Hdel :
    filter (λ kv : (string + string * nat) * string,
              key_truthy kv.1 ∧ kv.2 ≠ "") (delete (inl "") c)
    = filter (λ kv : (string + string * nat) * string,
                key_truthy kv.1 ∧ kv.2 ≠ "") c).
  { rewrite map_filter_delete. apply delete_id.
    apply translated_entries_lack_header. }
  repeat split.
  - apply map_subseteq_size, map_filter_subseteq.
  - intros Hh. rewrite <- Hdel.
    pose proof (map_subseteq_size _ _
                  (map_filter_subseteq
                     (λ kv : (string + string * nat) * string,
                        key_truthy kv.1 ∧ kv.2 ≠ "")
                     (delete (inl "") c))) as Hle.
    rewrite (map_size_delete_Some _ _ Hh) in Hle.
    destruct Hh as [h Hh].
    assert (size c ≠ 0%nat).
    { intros H0. apply map_size_empty_inv in H0. by rewrite H0 in Hh. }
    lia.
  - rewrite _get_catalog_size_unfold. by rewrite Hdel.
Qed.

(** A new catalog entry raises the count by one when its key is a
    non-empty message id or the key of a plural form, and its translation is
    not empty; otherwise the count stays as it was. *)
Theorem catalog_size_of_new_entry (c : gmap (string + string * nat) string)
    (pl : nat → Result Z) (fb : option Translations)
    (k : string + string * nat) (v : string) (n : nat) :
  c !! k = None →
  _get_catalog_size (GNUTranslations c pl fb) = inr n →
  _get_catalog_size (GNUTranslations (<[k:=v]> c) pl fb)
  = inr (if bool_decide (key_truthy k ∧ v ≠ "") then S n else n).
Proof.
  intros Hk. rewrite !_get_catalog_size_unfold. intros [= <-]. f_equal.
  rewrite map_filter_insert. simpl. case_bool_decide as HP.
  - rewrite decide_True by done. apply map_size_insert_None.
    apply map_lookup_filter_None. by left.
  - rewrite decide_False by done. by rewrite delete_id.
Qed.

Lemma catalog_size_of_new_entry_witness :
  _get_catalog_size
    (GNUTranslations (<[inr ("file", 1%nat) := "Dateien"]> Fixtures.german_catalog)
       Fixtures.germanic_plural None)
  = inr (if bool_decide (key_truthy (inr ("file", 1%nat)) ∧ "Dateien" ≠ "")
         then 2%nat else 1%nat).
Proof.
  apply (catalog_size_of_new_entry Fixtures.german_catalog
           Fixtures.germanic_plural None (inr ("file", 1%nat)) "Dateien" 1).
  - vm_compute. reflexivity.
  - vm_compute. reflexivity.
Defined.

(** ** Sequences of [activate] and [tr] calls *)

Section Calls.

Implicit Types (σ : Process) (c : Call) (cs : list Call).

Lemma run_call_unfold c σ :
  run_call c σ =
  match c with
  | call_activate L =>
      inr (None, {| builtins__ := bound_gettext (translation L);
                    translation_handler := translation_handler σ |})
  | call_tr m =>
      match builtins__ σ with
      | _DeferredTranslation_class => inr (Some m, σ)
      | bound_gettext t =>
          match gettext t m with
          | inl e => inl e
          | inr s => inr (Some s, σ)
          end
      end
  end.
Proof.
  destruct c as [L|m]; unfold run_call; py_unfold.
  - by rewrite activate_unfold.
  - rewrite tr_unfold. destruct (builtins__ σ) as [|t]; [done|].
    unfold lift. by destruct (gettext t m).
Qed.

Lemma run_calls_cons c cs σ :
  run_calls (c :: cs) σ =
  match run_call c σ with
  | inl e => inl e
  | inr (r, σ') =>
      match run_calls cs σ' with
      | inl e => inl e
      | inr (rs, σ'') => inr (r :: rs, σ'')
      end
  end.
Proof.
  cbn [run_calls]. py_unfold. destruct (run_call c σ) as [e|[r σ']]; [done|].
  by destruct (run_calls cs σ') as [e|[rs σ'']].
Qed.

(** Calls that all return give one value each, leave the handler alone,
    and keep [builtins._] bound once it is. *)
Lemma run_calls_outcome cs σ out σ' :
  run_calls cs σ = inr (out, σ') →
  length out = length cs
  ∧ translation_handler σ' = translation_handler σ
  ∧ (builtins__ σ ≠ _DeferredTranslation_class →
     builtins__ σ' ≠ _DeferredTranslation_class).
Proof.
  revert σ out. induction cs as [|c cs IH]; intros σ out.
  - by intros [= <- <-].
  - rewrite run_calls_cons, run_call_unfold. destruct c as [L|m].
    + destruct (run_calls cs _) as [e|[rs σ'']] eqn:Hrest; [done|].
      intros [= <- <-]. apply IH in Hrest as (Hlen & Hh & Hb).
      repeat split; simpl; [by rewrite Hlen|done|]. intros _. by apply Hb.
    + destruct (builtins__ σ) as [|t] eqn:Hσ.
      * destruct (run_calls cs σ) as [e|[rs σ'']] eqn:Hrest; [done|].
        intros [= <- <-]. apply IH in Hrest as (Hlen & Hh & Hb).
        repeat split; simpl; [by rewrite Hlen|done..].
      * destruct (gettext t m) as [e|s]; [done|].
        destruct (run_calls cs σ) as [e|[rs σ'']] eqn:Hrest; [done|].
        intros [= <- <-]. apply IH in Hrest as (Hlen & Hh & Hb).
        repeat split; simpl; [by rewrite Hlen|done|].
        intros _. apply Hb. by rewrite Hσ.
Qed.

(** Calls of [tr] that return leave the process as it is. *)
Lemma run_calls_tr_only cs σ out σ' :
  Forall (λ c, ∃ m, c = call_tr m) cs →
  run_calls cs σ = inr (out, σ') → σ' = σ.
Proof.
  intros Hcs. revert out.
  induction Hcs as [|c cs [m ->] _ IH]; intros out.
  - by intros [= _ <-].
  - rewrite run_calls_cons, run_call_unfold.
    destruct (builtins__ σ) as [|t].
    + destruct (run_calls cs σ) as [e|[rs σ'']]; [done|].
      intros [= _ <-]. by eapply IH.
    + destruct (gettext t m) as [e|s]; [done|].
      destruct (run_calls cs σ) as [e|[rs σ'']]; [done|].
      intros [= _ <-]. by eapply IH.
Qed.

Lemma run_calls_app cs1 cs2 σ :
  run_calls (cs1 ++ cs2) σ =
  match run_calls cs1 σ with
  | inl e => inl e
  | inr (out1, σ1) =>
      match run_calls cs2 σ1 with
      | inl e => inl e
      | inr (out2, σ2) => inr (out1 ++ out2, σ2)
      end
  end.
Proof.
  revert σ. induction cs1 as [|c cs1 IH]; intros σ.
  - simpl. py_unfold. by destruct (run_calls cs2 σ) as [e|[out2 σ2]].
  - rewrite <- app_comm_cons, !run_calls_cons.
    destruct (run_call c σ) as [e|[r σ']]; [done|]. rewrite IH.
    destruct (run_calls cs1 σ') as [e|[out1 σ1]]; [done|].
    by destruct (run_calls cs2 σ1) as [e|[out2 σ2]].
Qed.

End Calls.

(** An [activate] cannot be undone: in a process where a language is
    active, after whatever calls of [activate] and [tr] have returned, the
    handler is what it was and [builtins._] is not the class
    [_DeferredTranslation]; no call leads back to passthrough mode. *)
Theorem activation_is_permanent (cs : list Call) (σ σ' : Process)
    (out : list (option string)) :
  builtins__ σ ≠ _DeferredTranslation_class →
  run_calls cs σ = inr (out, σ') →
  length out = length cs
  ∧ translation_handler σ' = translation_handler σ
  ∧ builtins__ σ' ≠ _DeferredTranslation_class.
Proof.
  intros Hb Hrun. apply run_calls_outcome in Hrun as (Hl & Hh & Hk).
  repeat split; try done. by apply Hk.
Qed.

Lemma activation_is_permanent_witness :
  length [Some "Hallo"; None; Some "Hello"] = 3%nat
  ∧ translation_handler
      {| builtins__ := bound_gettext (translation Fixtures.english);
         translation_handler := None |} = None
  ∧ builtins__
      {| builtins__ := bound_gettext (translation Fixtures.english);
         translation_handler := None |} ≠ _DeferredTranslation_class.
Proof.
  apply (activation_is_permanent
           [call_tr "Hello"; call_activate Fixtures.english; call_tr "Hello"]
           Fixtures.german_process
           {| builtins__ := bound_gettext (translation Fixtures.english);
              translation_handler := None |}
           [Some "Hallo"; None; Some "Hello"]).
  - simpl. discriminate.
  - vm_compute. reflexivity.
Defined.

(** The last [activate] decides: when calls of any kind, then
    [activate L], then calls of [tr] only have returned, [tr m] does what
    the [gettext] of the translation of [L] does for [m], whichever
    languages were active before. *)
Theorem last_activation_wins (cs trs : list Call) (L : Language) (m : string)
    (σ σ' : Process) (out : list (option string)) :
  Forall (λ c, ∃ m', c = call_tr m') trs →
  run_calls (cs ++ call_activate L :: trs) σ = inr (out, σ') →
  returned (tr m σ') = gettext (translation L) m.
Proof.
  intros Htrs. rewrite run_calls_app.
  destruct (run_calls cs σ) as [e|[out1 σ1]]; [done|].
  rewrite run_calls_cons, run_call_unfold.
  destruct (run_calls trs _) as [e|[out2 σ2]] eqn:Hrun; [done|].
  intros [= _ <-]. apply (run_calls_tr_only _ _ _ _ Htrs) in Hrun as ->.
  rewrite tr_unfold. cbn. unfold lift.
  by destruct (gettext (translation L) m).
Qed.

Lemma last_activation_wins_witness :
  returned (tr "Hello" Fixtures.german_process)
  = gettext (translation Fixtures.german) "Hello".
Proof.
  apply (last_activation_wins
           [call_activate Fixtures.english; call_tr "Hello"]
           [call_tr "Goodbye"] Fixtures.german "Hello" passthrough_process
           Fixtures.german_process [None; Some "Hello"; None; Some ""]).
  - constructor; [by exists "Goodbye"|constructor].
  - vm_compute. reflexivity.
Defined.

(** Until the first [activate], every [tr] call returns its argument, and
    the process stays in passthrough mode however many calls are made. *)
Theorem passthrough_until_activated (ms : list string) (σ : Process) :
  builtins__ σ = _DeferredTranslation_class →
  run_calls (map call_tr ms) σ = inr (map Some ms, σ).
Proof.
  intros Hb. induction ms as [|m ms IH]; [done|].
  cbn [map]. rewrite run_calls_cons, run_call_unfold, Hb. by rewrite IH.
Qed.

Lemma passthrough_until_activated_witness :
  run_calls (map call_tr ["Hello"; "Goodbye"; "Hello"]) passthrough_process
  = inr (map Some ["Hello"; "Goodbye"; "Hello"], passthrough_process).
Proof.
  apply (passthrough_until_activated ["Hello"; "Goodbye"; "Hello"]
           passthrough_process).
  reflexivity.
Defined.

(** ** Display names *)

Section DisplayName.

Lemma list_ascii_of_append (s t : string) :
  list_ascii_of_string (s +:+ t)
  = list_ascii_of_string s ++ list_ascii_of_string t.
Proof.
  induction s as [|c s IH]; [done|]. rewrite append_cons. simpl. by rewrite IH.
Qed.

Lemma list_ascii_of_string_inj (s t : string) :
  list_ascii_of_string s = list_ascii_of_string t → s = t.
Proof.
  intros H. rewrite <- (string_of_list_ascii_of_string s).
  rewrite <- (string_of_list_ascii_of_string t). by rewrite H.
Qed.

(** The digits of a number hold no space. *)
Lemma string_of_uint_no_space (d : Decimal.uint) :
  Forall (λ c, c ≠ " "%char)
    (list_ascii_of_string (NilEmpty.string_of_uint d)).
Proof. induction d; simpl; by constructor. Qed.

Lemma str_of_int_no_space (n : Z) :
  Forall (λ c, c ≠ " "%char) (list_ascii_of_string (str_of_int n)).
Proof.
  unfold str_of_int. destruct (Z.to_int n) as [d|d]; simpl.
  - apply string_of_uint_no_space.
  - constructor; [done|]. apply string_of_uint_no_space.
Qed.

Lemma str_of_int_inj (n1 n2 : Z) : str_of_int n1 = str_of_int n2 → n1 = n2.
Proof.
  unfold str_of_int. intros H.
  apply (f_equal NilEmpty.int_of_string) in H.
  rewrite !NilEmpty.isi in H. injection H as H.
  rewrite <- (DecimalZ.of_to n1), <- (DecimalZ.of_to n2). by rewrite H.
Qed.

(** Where the part of a label after the name can start. *)
Lemma label_tail_start (k d1 d2 : list ascii) :
  Forall (λ c, c ≠ " "%char) d2 →
  " "%char :: "("%char :: d2 ++ ["%"%char; ")"%char]
  = k ++ " "%char :: "("%char :: d1 ++ ["%"%char; ")"%char] →
  k = [].
Proof.
  intros Hd2 H. destruct k as [|a [|b k]]; [done|by injection H|].
  injection H as _ _ H.
  assert (Hin : " "%char ∈ d2 ++ ["%"%char; ")"%char]).
  { rewrite H. apply elem_of_app. right. left. }
  apply elem_of_app in Hin as [Hin|Hin].
  - by apply (proj1 (Forall_forall _ _) Hd2) in Hin.
  - rewrite !elem_of_cons, elem_of_nil in Hin. by destruct Hin as [|[|]].
Qed.

Lemma display_name_list (L : Language) :
  list_ascii_of_string (display_name L)
  = list_ascii_of_string (name_en L)
    ++ " "%char :: "("%char
       :: list_ascii_of_string (str_of_int (translation_percent L))
       ++ ["%"%char; ")"%char].
Proof. unfold display_name. by rewrite !list_ascii_of_append. Qed.

End DisplayName.

(** The display name tells the English name and the percentage: two
    languages with the same display name have the same English name and the
    same percentage. *)
Theorem display_name_inj (L1 L2 : Language) :
  display_name L1 = display_name L2 →
  name_en L1 = name_en L2 ∧ translation_percent L1 = translation_percent L2.
Proof.
  intros H. apply (f_equal list_ascii_of_string) in H.
  rewrite !display_name_list in H.
  pose proof (str_of_int_no_space (translation_percent L1)) as Hd1.
  pose proof (str_of_int_no_space (translation_percent L2)) as Hd2.
  assert (Hn : list_ascii_of_string (name_en L1)
               = list_ascii_of_string (name_en L2)).
  { apply app_eq_inv in H as [(k & Hk & Ht)|(k & Hk & Ht)].
    - apply label_tail_start in Ht; [|done]. subst k.
      by rewrite app_nil_r in Hk.
    - apply label_tail_start in Ht; [|done]. subst k.
      by rewrite app_nil_r in Hk. }
  rewrite Hn in H. apply app_inv_head in H. injection H as H.
  apply app_inv_tail in H.
  split.
  - by apply list_ascii_of_string_inj.
  - by apply str_of_int_inj, list_ascii_of_string_inj.
Qed.

Lemma display_name_inj_witness :
  name_en (Fixtures.portuguese "pt") = name_en (Fixtures.portuguese "pt_BR")
  ∧ translation_percent (Fixtures.portuguese "pt")
    = translation_percent (Fixtures.portuguese "pt_BR").
Proof.
  apply (display_name_inj (Fixtures.portuguese "pt")
           (Fixtures.portuguese "pt_BR")).
  reflexivity.
Defined.

Example display_name_portuguese :
  display_name (Fixtures.portuguese "pt") = "Portuguese (0%)"
  ∧ display_name (Fixtures.portuguese "pt_BR") = "Portuguese (0%)"
  ∧ Fixtures.portuguese "pt" ≠ Fixtures.portuguese "pt_BR".
Proof.
  split; [by vm_compute|]. split; [by vm_compute|].
  intros H. apply (f_equal abbr) in H. discriminate.
Qed.

Example display_name_german : display_name Fixtures.german = "German (50%)".
Proof. vm_compute. reflexivity. Qed.

(** ** The reference count of a text put together from two *)

Section ReferenceText.

Lemma readlines_from_app_bounded (n : nat) :
  ∀ (s cur t2 : string), (String.length s ≤ n)%nat →
    PyStr.readlines_from cur ((s +:+ String PyStr.LF "") +:+ t2)
    = PyStr.readlines_from cur (s +:+ String PyStr.LF "")
      ++ PyStr.readlines_from "" t2.
Proof.
  induction n as [|n IH]; intros s cur t2 Hlen.
  - destruct s; [reflexivity|simpl in Hlen; lia].
  - destruct s as [|c s']; [reflexivity|].
    simpl in Hlen. rewrite !append_cons. cbn [PyStr.readlines_from].
    destruct (Ascii.eqb c PyStr.LF).
    { rewrite <- app_comm_cons. f_equal. apply IH. lia. }
    destruct (Ascii.eqb c PyStr.CR).
    + destruct s' as [|c' s'']; [reflexivity|].
      simpl in Hlen. rewrite !append_cons.
      destruct (Ascii.eqb c' PyStr.LF).
      * rewrite <- app_comm_cons. f_equal. apply IH. lia.
      * rewrite <- app_comm_cons. f_equal.
        apply (IH (String c' s'') "" t2). simpl. lia.
    + apply IH. lia.
Qed.

(** The lines of a text that ends with a newline, followed by more text,
    are the lines of the one and then the lines of the other. *)
Lemma readlines_app (s t2 : string) :
  PyStr.readlines ((s +:+ String PyStr.LF "") +:+ t2)
  = PyStr.readlines (s +:+ String PyStr.LF "") ++ PyStr.readlines t2.
Proof. apply (readlines_from_app_bounded (String.length s)). lia. Qed.

End ReferenceText.

(** Appending text to a reference catalog that ends with a newline adds
    the [msgid] lines of that text: the count for both together is the sum of
    the two counts plus one, as the header of only one of them is taken
    off. *)
Theorem total_active_messages_of_appended_text (fs1 fs2 fs : LocalesDir)
    (s t2 : string) :
  base_pot fs1 = inr (s +:+ String PyStr.LF "") →
  base_pot fs2 = inr t2 →
  base_pot fs = inr ((s +:+ String PyStr.LF "") +:+ t2) →
  ∃ N1 N2,
    _get_total_active_messages fs1 = inr N1
    ∧ _get_total_active_messages fs2 = inr N2
    ∧ _get_total_active_messages fs = inr (N1 + N2 + 1).
Proof.
  intros H1 H2 H. unfold _get_total_active_messages. py_unfold.
  rewrite H1, H2, H. do 2 eexists. split; [done|]. split; [done|].
  rewrite readlines_app, filter_app, length_app. f_equal. lia.
Qed.

Lemma total_active_messages_of_appended_text_witness :
  ∃ N1 N2,
    _get_total_active_messages Fixtures.locales_header = inr N1
    ∧ _get_total_active_messages Fixtures.locales_messages = inr N2
    ∧ _get_total_active_messages Fixtures.locales_header_messages
      = inr (N1 + N2 + 1).
Proof.
  apply (total_active_messages_of_appended_text Fixtures.locales_header
           Fixtures.locales_messages Fixtures.locales_header_messages
           Fixtures.header_line (Fixtures.pot_messages 2));
    reflexivity.
Defined.

Section PluralEntry.

(** A text that starts with a whole line: that line is the first line
    read. *)
Lemma readlines_from_line (s cur rest : string) :
  no_newline s →
  PyStr.readlines_from cur (s +:+ String PyStr.LF rest)
  = (cur +:+ (s +:+ String PyStr.LF "")) :: PyStr.readlines_from "" rest.
Proof.
  unfold no_newline. revert cur.
  induction s as [|c s IH]; intros cur Hs; [reflexivity|].
  simpl in Hs. apply Forall_cons in Hs as [[Hlf Hcr] Hs].
  rewrite append_cons. cbn [PyStr.readlines_from].
  rewrite (proj2 (Ascii.eqb_neq _ _) Hlf), (proj2 (Ascii.eqb_neq _ _) Hcr).
  rewrite (IH _ Hs). f_equal. by rewrite append_assoc.
Qed.

Lemma no_newline_append (s t : string) :
  no_newline s → no_newline t → no_newline (s +:+ t).
Proof.
  unfold no_newline. rewrite list_ascii_of_append. apply Forall_app_2.
Qed.

Lemma no_newline_quoted (s : string) : no_newline s → no_newline (quoted s).
Proof.
  intros Hs. unfold quoted, no_newline. simpl. constructor; [done|].
  rewrite list_ascii_of_append. apply Forall_app_2; [done|].
  by repeat constructor.
Qed.

Lemma readlines_plural_entry (a b : string) :
  no_newline a → no_newline b →
  PyStr.readlines (plural_entry a b)
  = [ ("msgid " +:+ quoted a) +:+ String PyStr.LF "";
      ("msgid_plural " +:+ quoted b) +:+ String PyStr.LF "";
      ("msgstr[0] " +:+ quoted "") +:+ String PyStr.LF "";
      ("msgstr[1] " +:+ quoted "") +:+ String PyStr.LF "" ].
Proof.
  intros Ha Hb. unfold PyStr.readlines, plural_entry.
  rewrite readlines_from_line.
  2:{ apply no_newline_append; [by repeat constructor|].
      by apply no_newline_quoted. }
  rewrite readlines_from_line.
  2:{ apply no_newline_append; [by repeat constructor|].
      by apply no_newline_quoted. }
  rewrite readlines_from_line by (by repeat constructor).
  rewrite readlines_from_line by (by repeat constructor).
  reflexivity.
Qed.

End PluralEntry.

(** An entry with a plural form adds two to the reference count: its
    [msgid_plural] line contains [msgid] and is counted like its [msgid]
    line. *)
Theorem plural_entry_counts_twice (fs0 fs : LocalesDir) (s a b : string)
    (N0 : Z) :
  no_newline a → no_newline b →
  base_pot fs0 = inr (s +:+ String PyStr.LF "") →
  base_pot fs = inr ((s +:+ String PyStr.LF "") +:+ plural_entry a b) →
  _get_total_active_messages fs0 = inr N0 →
  _get_total_active_messages fs = inr (N0 + 2).
Proof.
  intros Ha Hb H0 H. unfold _get_total_active_messages. py_unfold.
  rewrite H0, H. intros [= <-]. f_equal.
  rewrite readlines_app, filter_app, length_app.
  rewrite (readlines_plural_entry a b Ha Hb).
  rewrite !filter_cons, filter_nil.
  rewrite decide_True.
  2:{ apply contains_msgid. by exists "", (" " +:+ quoted a +:+ String PyStr.LF ""). }
  rewrite decide_True.
  2:{ apply contains_msgid.
      by exists "", ("_plural " +:+ quoted b +:+ String PyStr.LF ""). }
  rewrite decide_False by (by vm_compute).
  rewrite decide_False by (by vm_compute).
  simpl length. lia.
Qed.

Lemma plural_entry_counts_twice_witness :
  _get_total_active_messages Fixtures.locales_header_plural = inr (0 + 2).
Proof.
  apply (plural_entry_counts_twice Fixtures.locales_header
           Fixtures.locales_header_plural Fixtures.header_line
           "file" "files" 0).
  - unfold no_newline. simpl. repeat constructor; discriminate.
  - unfold no_newline. simpl. repeat constructor; discriminate.
  - reflexivity.
  - reflexivity.
  - vm_compute. reflexivity.
Defined.

(** ** Looking up what was loaded *)

(** After a successful load, the abbreviations that
    [get_language_by_abbr] finds are exactly the qualifying names of the
    directory listing; for every other string it raises. *)
Theorem loaded_lookup_by_abbr_iff (fs : LocalesDir) (self : TranslationHandler)
    (name : string) :
  TranslationHandler_init fs = inr self →
  (∃ L, get_language_by_abbr self name = inr L)
  ↔ name ∈ listdir fs ∧ is_translation_file name = true.
Proof.
  intros Hinit. pose proof (loaded_abbreviations _ _ Hinit) as Habbr.
  unfold _provided_translations in Habbr.
  assert (Hiff : name ∈ map abbr (_translated_languages self)
                 ↔ name ∈ listdir fs ∧ is_translation_file name = true).
  { rewrite Habbr, list_elem_of_filter. tauto. }
  rewrite <- Hiff. clear Hiff. split.
  - intros [L [HL <-]%get_language_by_abbr_found].
    by apply (list_elem_of_fmap_2 abbr).
  - intros Hin.
    destruct (get_language_by_abbr self name) as [e|L] eqn:Hget;
      [|by exists L].
    apply get_language_by_abbr_raises in Hget as [_ Hnone].
    apply (list_elem_of_fmap (B:=string)) in Hin as (L & -> & HL).
    by apply (proj1 (Forall_forall _ _) Hnone) in HL.
Qed.

Lemma loaded_lookup_by_abbr_iff_witness :
  (∃ L, get_language_by_abbr Fixtures.small_handler "de" = inr L)
  ↔ "de" ∈ listdir Fixtures.locales_small ∧ is_translation_file "de" = true.
Proof.
  apply (loaded_lookup_by_abbr_iff Fixtures.locales_small
           Fixtures.small_handler "de").
  vm_compute. reflexivity.
Defined.
